(** * RobotClientAPI: the fleet adapter's robot API wrapper

  A shallow embedding of [rmf_demos_fleet_adapter/RobotClientAPI.py]:
  the status queries ([data], [position], [navigation_completed],
  [process_completed], [navigation_remaining_duration]), the command
  request [navigate], and the beacon signalling of [update_beacon].

  Python values decoded from JSON (and read from the configuration) are
  an inductive type; a Python [float] is a binary64 number, here Rocq's
  primitive [float]; exceptions are explicit results; the mutable beacon
  table and the MQTT publishes are threaded through a small state, error
  and trace monad.  Float [-], [+] and [math.sqrt] are the correctly
  rounded IEEE operations; [** 2] goes through the C library's [pow],
  which is a parameter of the development.  The [print] calls of the
  source are diagnostics with no influence on results and are left
  out. *)

From Stdlib Require Import ZArith List String Bool Lia Floats.
Import ListNotations.

Set Warnings "-register-all".

Local Open Scope string_scope.
Local Open Scope list_scope.
Local Open Scope Z_scope.

(** ** Python values, exceptions and the operators the source applies *)

Module Py.

(** The exception classes the modelled code can raise. *)
Inductive exn : Type :=
| AssertionError
| KeyError
| TypeError
| AttributeError
| OverflowError
| ValueError.

(** A call either returns a value or raises. *)
Inductive result (A : Type) : Type :=
| Return (a : A)
| Raise (e : exn).
Arguments Return {A} a.
Arguments Raise {A} e.

Definition rbind {A B : Type} (r : result A) (k : A -> result B) : result B :=
  match r with
  | Return a => k a
  | Raise e => Raise e
  end.

(** What [json.loads] (and the YAML configuration) produces.  A [dict]
    is kept as the list of its items in insertion order; its keys are
    strings. *)
Inductive value : Type :=
| PyNone
| PyBool (b : bool)
| PyInt (z : Z)
| PyFloat (f : float)
| PyStr (s : string)
| PyList (l : list value)
| PyDict (items : list (string * value)).

Definition is_None (v : value) : bool :=
  match v with PyNone => true | _ => false end.

(** [d[k]] on the items of a dict: the entry stored under [k], if any. *)
Fixpoint dict_get {A : Type} (items : list (string * A)) (k : string) : option A :=
  match items with
  | [] => None
  | (k', v) :: rest => if String.eqb k' k then Some v else dict_get rest k
  end.

(** [v[k]] for a string key [k]: only a dict can be indexed by a string,
    and a missing key raises. *)
Definition subscript (v : value) (k : string) : result value :=
  match v with
  | PyDict items =>
      match dict_get items k with
      | Some x => Return x
      | None => Raise KeyError
      end
  | _ => Raise TypeError
  end.

(** [v.get(k)]: only a dict has the method; a missing key gives [None]. *)
Definition get (v : value) (k : string) : result value :=
  match v with
  | PyDict items =>
      match dict_get items k with
      | Some x => Return x
      | None => Return PyNone
      end
  | _ => Raise AttributeError
  end.

Definition float_is_zero (f : float) : bool := PrimFloat.eqb f 0%float.

(** Truth value of an object, as [if] and [not] test it. *)
Definition truthy (v : value) : bool :=
  match v with
  | PyNone => false
  | PyBool b => b
  | PyInt z => negb (z =? 0)
  | PyFloat f => negb (float_is_zero f)
  | PyStr s => negb (String.eqb s "")
  | PyList l => match l with [] => false | _ => true end
  | PyDict items => match items with [] => false | _ => true end
  end.

(** *** Numbers

    [bool] is a subclass of [int]; [int] is unbounded; [float] is
    binary64.  Comparisons between a float and an int are exact. *)

Inductive num : Type :=
| NInt (z : Z)
| NFloat (f : float).

Definition as_num (v : value) : option num :=
  match v with
  | PyBool b => Some (NInt (Z.b2z b))
  | PyInt z => Some (NInt z)
  | PyFloat f => Some (NFloat f)
  | _ => None
  end.

Definition of_num (n : num) : value :=
  match n with
  | NInt z => PyInt z
  | NFloat f => PyFloat f
  end.

(** The exact order between a binary64 number and an integer
    ([None] when the float is a NaN). *)
Definition SFcompare_Z (f : spec_float) (z : Z) : option comparison :=
  match f with
  | S754_nan => None
  | S754_infinity s => Some (if s then Lt else Gt)
  | S754_zero _ => Some (0 ?= z)
  | S754_finite s m e =>
      let v := cond_Zopp s (Zpos m) in
      Some (if 0 <=? e then (v * 2 ^ e ?= z) else (v ?= z * 2 ^ (- e)))
  end.

Definition float_compare (f : float) (n : num) : option comparison :=
  match n with
  | NInt z => SFcompare_Z (Prim2SF f) z
  | NFloat g =>
      match PrimFloat.compare f g with
      | FEq => Some Eq
      | FLt => Some Lt
      | FGt => Some Gt
      | FNotComparable => None
      end
  end.

(** [float(z)]: the nearest binary64 number (ties to even), or
    [OverflowError] when [z] is too large. *)
Definition float_of_Z (z : Z) : result float :=
  let f := SF2Prim (binary_normalize prec emax z 0 false) in
  if is_infinity f then Raise OverflowError else Return f.

Definition to_float (n : num) : result float :=
  match n with
  | NInt z => float_of_Z z
  | NFloat f => Return f
  end.

(** [a - b] and [a + b]: integers stay exact, a mixed pair is computed
    in floating point, anything that is not a number is a [TypeError]. *)
Definition arith (opZ : Z -> Z -> Z) (opF : float -> float -> float)
           (a b : value) : result value :=
  match as_num a, as_num b with
  | Some (NInt x), Some (NInt y) => Return (PyInt (opZ x y))
  | Some x, Some y =>
      rbind (to_float x) (fun fx =>
      rbind (to_float y) (fun fy =>
      Return (PyFloat (opF fx fy))))
  | _, _ => Raise TypeError
  end.

Definition sub : value -> value -> result value := arith Z.sub PrimFloat.sub.
Definition add : value -> value -> result value := arith Z.add PrimFloat.add.

(** [math.sqrt(v)]: the argument is converted to a float; a negative
    argument is a "math domain error". *)
Definition math_sqrt (v : value) : result float :=
  match as_num v with
  | Some n =>
      rbind (to_float n) (fun f =>
      if PrimFloat.ltb f 0%float then Raise ValueError
      else Return (PrimFloat.sqrt f))
  | None => Raise TypeError
  end.

(** [d < v], [d > v] and [d == v] for a float [d]: ordering against
    something that is not a number raises, equality is just false. *)
Definition is_cmp (c : comparison) (o : option comparison) : bool :=
  match o, c with
  | Some Lt, Lt | Some Eq, Eq | Some Gt, Gt => true
  | _, _ => false
  end.

Definition float_lt (d : float) (v : value) : result bool :=
  match as_num v with
  | Some n => Return (is_cmp Lt (float_compare d n))
  | None => Raise TypeError
  end.

Definition float_gt (d : float) (v : value) : result bool :=
  match as_num v with
  | Some n => Return (is_cmp Gt (float_compare d n))
  | None => Raise TypeError
  end.

Definition float_eq (d : float) (v : value) : bool :=
  match as_num v with
  | Some n => is_cmp Eq (float_compare d n)
  | None => false
  end.

(** [v == c] for an integer [c] (a command id). *)
Definition eq_int (v : value) (c : Z) : bool :=
  match as_num v with
  | Some (NInt z) => z =? c
  | Some (NFloat f) => is_cmp Eq (SFcompare_Z (Prim2SF f) c)
  | None => false
  end.

End Py.

Import Py.

Declare Scope py_scope.
Delimit Scope py_scope with py.
Notation "x <~ c ;; k" := (rbind c (fun x => k))
  (at level 61, c at next level, right associativity) : py_scope.
Local Open Scope py_scope.

(** *** The C library behind [**]

    On a float, [x ** 2] ends in the C library's [pow(|x|, 2.0)], whose
    last bit is the library's own (it need not be the correctly rounded
    square), and in the [errno] it leaves.  The library is the
    platform's: everything below is stated for any [pow]. *)
Inductive errno : Type :=
| E0        (* [errno] still zero after the call *)
| ERANGE
| EOTHER.   (* any other value *)

(** [_Py_ADJUST_ERANGE1]: an infinite result counts as a range error
    also when the library did not say so, and a range error with a
    zero result (an underflow) is forgiven. *)
Definition adjust_erange1 (ix : float) (e : errno) : errno :=
  match e with
  | E0 => if is_infinity ix then ERANGE else E0
  | ERANGE => if float_is_zero ix then E0 else ERANGE
  | EOTHER => EOTHER
  end.

(** For the concrete runs at the end of the file: a library whose
    [pow(x, 2.0)] is the correctly rounded square and which leaves
    [errno] alone.  The squares met in those runs are whole numbers,
    which a [pow] that errs by less than one unit in the last place
    returns exactly, or lie beyond the largest float. *)
Definition square_libm (x y : float) : float * errno := ((x * x)%float, E0).

Section Platform.

(** The platform's [pow]: the result and the [errno] after the call. *)
Variable libm_pow : float -> float -> float * errno.

(** [x ** 2] on a float, as [float_pow] computes it: NaN, infinities,
    zeros and [|x| = 1.0] are answered without the library; otherwise
    [pow(|x|, 2.0)], and a range error (an overflow) raises
    [OverflowError] where float [*] would give [inf]. *)
Definition float_pow2 (x : float) : result float :=
  if is_nan x then Return x
  else if is_infinity x then Return (abs x)
  else if float_is_zero x then Return 0%float
  else
    let iv := abs x in
    if PrimFloat.eqb iv 1%float then Return 1%float
    else
      let '(ix, e) := libm_pow iv 2%float in
      match adjust_erange1 ix e with
      | E0 => Return ix
      | ERANGE => Raise OverflowError
      | EOTHER => Raise ValueError
      end.

(** [v ** 2]. *)
Definition pow2 (v : value) : result value :=
  match as_num v with
  | Some (NInt z) => Return (PyInt (z * z))
  | Some (NFloat f) => rbind (float_pow2 f) (fun r => Return (PyFloat r))
  | None => Raise TypeError
  end.

(** ** The request/response channel

    Every method of the source performs one HTTP exchange inside a
    [try] whose [except Exception] clause swallows whatever goes wrong.
    The robot's server is the environment: a method takes, as its last
    argument, what its exchange comes to. *)
Inductive reply : Type :=
| EncodingFailed   (* requests could not serialise the [json=] body *)
| TransportFailed  (* no response: connection refused, timeout *)
| StatusFailed     (* [raise_for_status()] raised on an error status *)
| DecodingFailed   (* [response.json()] raised on the body *)
| Json (body : value).

(** [data]: the decoded status body, or [None] after any failure (a body
    that is JSON [null] also decodes to [None]).  [robot_name] only
    selects the URL. *)
Definition data (robot_name : option string) (r : reply) : value :=
  match r with
  | Json body => body
  | _ => PyNone
  end.

Definition check_connection (r : reply) : bool :=
  if is_None (data None r) then false else true.

(** The request body [navigate] posts; what comes back is the
    environment's [reply]. *)
Definition navigate_body (pose : list value) (map_name : string)
           (speed_limit : value) : value :=
  PyDict [("map_name", PyStr map_name);
          ("destination", PyDict [("x", nth 0 pose PyNone);
                                  ("y", nth 1 pose PyNone);
                                  ("yaw", nth 2 pose PyNone)]);
          ("speed_limit", speed_limit)].

(** [navigate]: the assertion on [pose] stands before the [try]; inside
    it every exception, a missing ['success'] included, ends in
    [return False]. *)
Definition navigate (robot_name : string) (cmd_id : Z) (pose : list value)
           (map_name : string) (speed_limit : value) (r : reply) : result value :=
  if negb (2 <? Z.of_nat (List.length pose)) then Raise AssertionError
  else
    match r with
    | Json body =>
        match subscript body "success" with
        | Return accepted => Return accepted
        | Raise _ => Return (PyBool false)
        end
    | _ => Return (PyBool false)
    end.

Definition navigation_remaining_duration (robot_name : string) (cmd_id : Z)
           (r : reply) : result value :=
  let response := data (Some robot_name) r in
  if is_None response then Return PyNone
  else
    d <~ subscript response "data" ;;
    arrival <~ get d "destination_arrival" ;;
    if negb (is_None arrival) then
      c <~ get arrival "cmd_id" ;;
      if negb (eq_int c cmd_id) then Return PyNone
      else get arrival "duration"
    else Return PyNone.

Definition navigation_completed (robot_name : string) (cmd_id : Z)
           (r : reply) : result bool :=
  let response := data (Some robot_name) r in
  if negb (is_None response) then
    d <~ get response "data" ;;
    if negb (is_None d) then
      last <~ subscript d "last_completed_request" ;;
      Return (eq_int last cmd_id)
    else Return false
  else Return false.

Definition process_completed (robot_name : string) (cmd_id : Z)
           (r : reply) : result bool :=
  navigation_completed robot_name cmd_id r.

(** The result of each of a sequence of polls, one exchange per poll. *)
Definition polls (robot_name : string) (cmd_id : Z) (rs : list reply)
  : list (result bool) :=
  map (navigation_completed robot_name cmd_id) rs.

(** ** The adapter's state and the beacon signalling *)

Record MQTTClient : Type := {
  name : string;
  connected : bool
}.

(** One entry of [self.beacons]: the two-element list [[loc, robot]]. *)
Record beacon_data : Type := {
  loc : list value;
  occupant : option string
}.

Record RobotAPI : Type := {
  prefix : string;
  user : string;
  password : string;
  mqtt_client : option MQTTClient;
  beacons : list (string * beacon_data);
  beacon_radius : value
}.

Definition with_beacons (self : RobotAPI) (bs : list (string * beacon_data)) : RobotAPI :=
  {| prefix := prefix self; user := user self; password := password self;
     mqtt_client := mqtt_client self; beacons := bs;
     beacon_radius := beacon_radius self |}.

(** [d[k] = v] on the items of a dict: replace in place, or append. *)
Fixpoint dict_set {A : Type} (items : list (string * A)) (k : string) (v : A)
  : list (string * A) :=
  match items with
  | [] => [(k, v)]
  | (k', v') :: rest =>
      if String.eqb k' k then (k', v) :: rest else (k', v') :: dict_set rest k v
  end.

(** The MQTT section of the configuration. *)
Record mqtt_config : Type := {
  cfg_user : string;
  cfg_password : string;
  cfg_url : string;
  cfg_beacons : list (string * list value);
  cfg_beacon_alert_radius : value
}.

(** [RobotAPI.__init__]: without an MQTT configuration there is no client
    (and the source does not even create the beacon attributes, which
    [update_beacon] then never reads); with one, every configured beacon
    starts with no robot in its vicinity.  The connection to the broker
    that [MQTTClient] opens is the environment's business. *)
Definition init (prefix_ user_ password_ : string) (config : option mqtt_config)
  : RobotAPI :=
  match config with
  | None =>
      {| prefix := prefix_; user := user_; password := password_;
         mqtt_client := None; beacons := []; beacon_radius := PyNone |}
  | Some c =>
      {| prefix := prefix_; user := user_; password := password_;
         mqtt_client := Some {| name := "MiR_Fleet"; connected := false |};
         beacons :=
           fold_left (fun bs item =>
                        dict_set bs (fst item)
                                 {| loc := snd item; occupant := None |})
                     (cfg_beacons c) [];
         beacon_radius := cfg_beacon_alert_radius c |}
  end.

(** The dict [_beacon_on] and [_beacon_off] serialise with [json.dumps]
    and publish: [{'id': beacon_id, 'toggle': 1}] or [0]. *)
Record toggle_msg : Type := {
  id : string;
  toggle : Z
}.

(** What a call does to the outside world and to the beacon table, in
    program order: a [publish] on the MQTT client, an assignment to
    [self.beacons[beacon_id][1]]. *)
Inductive effect : Type :=
| Publish (topic : string) (msg : toggle_msg)
| SetOccupant (beacon_id : string) (robot : option string).

(** A method of the object: from the state before the call to its
    result, the state after it and the effects it performed.  A raised
    exception keeps the state and the effects reached so far. *)
Definition M (A : Type) : Type := RobotAPI -> result A * RobotAPI * list effect.

Definition ret {A : Type} (a : A) : M A := fun self => (Return a, self, []).

Definition bind {A B : Type} (m : M A) (k : A -> M B) : M B :=
  fun self =>
    match m self with
    | (Return a, self1, t1) =>
        match k a self1 with
        | (r, self2, t2) => (r, self2, t1 ++ t2)
        end
    | (Raise e, self1, t1) => (Raise e, self1, t1)
    end.

Definition lift {A : Type} (r : result A) : M A := fun self => (r, self, []).

Definition gets {A : Type} (f : RobotAPI -> A) : M A :=
  fun self => (Return (f self), self, []).

Notation "'let*' x ':=' c 'in' k" := (bind c (fun x => k))
  (at level 61, x pattern, c at next level, right associativity) : py_scope.
Notation "c ';;;' k" := (bind c (fun _ => k))
  (at level 61, right associativity) : py_scope.

Fixpoint for_each {A : Type} (l : list A) (body : A -> M unit) : M unit :=
  match l with
  | [] => ret tt
  | x :: rest => body x ;;; for_each rest body
  end.

Definition result_of {A : Type} (o : result A * RobotAPI * list effect) : result A :=
  fst (fst o).
Definition state_of {A : Type} (o : result A * RobotAPI * list effect) : RobotAPI :=
  snd (fst o).
Definition trace_of {A : Type} (o : result A * RobotAPI * list effect) : list effect :=
  snd o.

Definition mqtt_topic (beacon_id : string) : string :=
  ("cgh/" ++ beacon_id ++ "/toggle_beacon_topic")%string.

(** The two signals of a beacon.  The client's [publish] hands the
    message to the network loop and returns; a delivery that fails
    shows in its return value, which the source drops. *)
Definition ON (beacon_id : string) : effect :=
  Publish (mqtt_topic beacon_id) {| id := beacon_id; toggle := 1 |}.
Definition OFF (beacon_id : string) : effect :=
  Publish (mqtt_topic beacon_id) {| id := beacon_id; toggle := 0 |}.

Definition _beacon_on (beacon_id : string) : M unit :=
  fun self => (Return tt, self, [ON beacon_id]).

Definition _beacon_off (beacon_id : string) : M unit :=
  fun self => (Return tt, self, [OFF beacon_id]).

Definition _dist (A B : list value) : result float :=
  if negb (1 <? Z.of_nat (List.length A)) then Raise AssertionError
  else if negb (1 <? Z.of_nat (List.length B)) then Raise AssertionError
  else
    dx <~ sub (nth 0 A PyNone) (nth 0 B PyNone) ;;
    sx <~ pow2 dx ;;
    dy <~ sub (nth 1 A PyNone) (nth 1 B PyNone) ;;
    sy <~ pow2 dy ;;
    s <~ add sx sy ;;
    math_sqrt s.

(** [self.beacons[beacon_id][1] = robot]. *)
Fixpoint store_occupant (bs : list (string * beacon_data)) (beacon_id : string)
         (robot : option string) : list (string * beacon_data) :=
  match bs with
  | [] => []
  | (k, d) :: rest =>
      if String.eqb k beacon_id
      then (k, {| loc := loc d; occupant := robot |}) :: rest
      else (k, d) :: store_occupant rest beacon_id robot
  end.

Definition set_occupant (beacon_id : string) (robot : option string) : M unit :=
  fun self =>
    match dict_get (beacons self) beacon_id with
    | Some _ =>
        (Return tt, with_beacons self (store_occupant (beacons self) beacon_id robot),
         [SetOccupant beacon_id robot])
    | None => (Raise KeyError, self, [])
    end.

(** [current_robot == robot_name]. *)
Definition occupant_is (current_robot : option string) (robot_name : string) : bool :=
  match current_robot with
  | Some r => String.eqb r robot_name
  | None => false
  end.

(** The body of the loop of [update_beacon], for one item of
    [self.beacons.items()].  The dict has one entry per key and an
    iteration writes only its own entry, after reading it: the item
    taken at the start of the loop is the stored one when its turn
    comes (lemma [for_each_frame]). *)
Definition beacon_step (robot_name : string) (robot_pos : list value)
           (item : string * beacon_data) : M unit :=
  let beacon_id := fst item in
  let beacon_loc := loc (snd item) in
  let current_robot := occupant (snd item) in
  (if occupant_is current_robot robot_name then
     let* d := lift (_dist beacon_loc robot_pos) in
     let* radius := gets beacon_radius in
     let* far := lift (float_gt d radius) in
     if (far : bool) then
       _beacon_off beacon_id ;;;
       set_occupant beacon_id None
     else ret tt
   else ret tt) ;;;
  let* d := lift (_dist beacon_loc robot_pos) in
  let* radius := gets beacon_radius in
  let* near := lift (float_lt d radius) in
  if (near : bool) then
    _beacon_on beacon_id ;;;
    set_occupant beacon_id (Some robot_name)
  else ret tt.

Definition update_beacon (robot_name : string) (robot_pos : list value) : M unit :=
  fun self =>
    match mqtt_client self with
    | None => ret tt self
    | Some _ => for_each (beacons self) (beacon_step robot_name robot_pos) self
    end.

(** [position]: the fields are read by subscript, outside any [try]. *)
Definition position (robot_name : string) (r : reply) : M value :=
  let response := data (Some robot_name) r in
  if negb (is_None response) then
    let* success := lift (subscript response "success") in
    if negb (truthy success) then ret PyNone
    else
      let* d := lift (subscript response "data") in
      let* position := lift (subscript d "position") in
      let* x := lift (subscript position "x") in
      let* y := lift (subscript position "y") in
      let* angle := lift (subscript position "yaw") in
      update_beacon robot_name [x; y] ;;;
      ret (PyList [x; y; angle])
  else ret PyNone.

(** ** Observations on states and traces *)

(** The object invariant [__init__] establishes: [self.beacons] is a
    dict (one entry per key), and there are beacons only where there is
    an MQTT client. *)
Definition wf (self : RobotAPI) : Prop :=
  NoDup (map fst (beacons self)) /\
  (mqtt_client self = None -> beacons self = []).

(** Every configured beacon's distance to [robot_pos] can be computed:
    the coordinates are numbers, at least two of them on each side, and
    no square overflows. *)
Definition dists_defined (self : RobotAPI) (robot_pos : list value) : Prop :=
  forall item, In item (beacons self) ->
               exists d, _dist (loc (snd item)) robot_pos = Return d.

(** Whether an effect concerns the beacon [beacon_id]. *)
Definition about (beacon_id : string) (e : effect) : bool :=
  match e with
  | Publish _ m => String.eqb (id m) beacon_id
  | SetOccupant k _ => String.eqb k beacon_id
  end.

Definition effect_eq_dec (a b : effect) : {a = b} + {a <> b}.
Proof.
  repeat decide equality; apply Ascii.ascii_dec || apply Bool.bool_dec.
Defined.

(** How often [e] occurs in a trace. *)
Definition emitted (e : effect) (t : list effect) : nat :=
  count_occ effect_eq_dec t e.

(** One transition of a beacon as the source performs it: the publish,
    then the write of the occupant. *)
Definition transition (tr : string * option string) : list effect :=
  let beacon_id := fst tr in
  match snd tr with
  | None => [OFF beacon_id; SetOccupant beacon_id None]
  | Some robot => [ON beacon_id; SetOccupant beacon_id (Some robot)]
  end.

(** The two decisions of an iteration, as functions of the item, the
    radius and the update: whether the exit branch fires and whether
    the entry branch fires. *)
Definition exits (robot_name : string) (robot_pos : list value) (rho : value)
           (bd : beacon_data) : bool :=
  occupant_is (occupant bd) robot_name &&
  match _dist (loc bd) robot_pos with
  | Return d => match float_gt d rho with Return b => b | Raise _ => false end
  | Raise _ => false
  end.

Definition enters (robot_pos : list value) (rho : value) (bd : beacon_data) : bool :=
  match _dist (loc bd) robot_pos with
  | Return d => match float_lt d rho with Return b => b | Raise _ => false end
  | Raise _ => false
  end.

(** Whether an iteration returns or raises. *)
Definition step_result (robot_pos : list value) (rho : value) (bd : beacon_data)
  : result unit :=
  match _dist (loc bd) robot_pos with
  | Return d =>
      match as_num rho with
      | Some _ => Return tt
      | None => Raise TypeError
      end
  | Raise e => Raise e
  end.

(** The state, the effects and the entry an iteration comes to, from
    the branches it took. *)
Definition after_step (far near : bool) (robot_name beacon_id : string)
           (self : RobotAPI) : RobotAPI :=
  if far then with_beacons self (store_occupant (beacons self) beacon_id None)
  else if near
       then with_beacons self (store_occupant (beacons self) beacon_id (Some robot_name))
       else self.

Definition step_trace (far near : bool) (robot_name beacon_id : string) : list effect :=
  (if far then transition (beacon_id, None) else []) ++
  (if near then transition (beacon_id, Some robot_name) else []).

Definition entry_after (far near : bool) (robot_name : string) (bd : beacon_data)
  : beacon_data :=
  if far then {| loc := loc bd; occupant := None |}
  else if near then {| loc := loc bd; occupant := Some robot_name |}
  else bd.

(** The reading of "the occupant is updated before the publish is
    attempted": whenever a trace publishes for a beacon, a write of that
    beacon's occupant stands earlier in it. *)
Definition occupant_written_before_publish (t : list effect) : Prop :=
  forall t1 t2 topic m,
    t = t1 ++ Publish topic m :: t2 ->
    exists robot, In (SetOccupant (id m) robot) t1.

(** The snapshot of reply [r] reports [last] as the last completed
    request. *)
Definition reports_last (r : reply) (last : value) : Prop :=
  exists d, get (data None r) "data" = Return d /\
            is_None d = false /\
            subscript d "last_completed_request" = Return last.

(** The reading of "remains true for every subsequent poll": once a
    poll's snapshot reports [cmd_id], every later poll answers true. *)
Definition stays_complete (robot_name : string) (cmd_id : Z) (rs : list reply) : Prop :=
  forall i j last,
    (i <= j < List.length rs)%nat ->
    reports_last (nth i rs TransportFailed) last ->
    eq_int last cmd_id = true ->
    nth j (polls robot_name cmd_id rs) (Return false) = Return true.

(** What [arrival.get(key)] gives on the items of a record. *)
Definition field (items : list (string * value)) (key : string) : value :=
  match dict_get items key with
  | Some v => v
  | None => PyNone
  end.

(** A reply that is no acceptance: the exchange failed at some stage,
    or the body has no readable ['success'], or it says [False]. *)
Definition refused (r : reply) : Prop :=
  match r with
  | Json body =>
      subscript body "success" = Return (PyBool false) \/
      exists e, subscript body "success" = Raise e
  | _ => True
  end.

(** ** Concrete inputs *)

(** A configured adapter: beacons at (0,0) and (10,0), radius 2. *)
Definition demo_config : mqtt_config :=
  {| cfg_user := "fleet"; cfg_password := "secret"; cfg_url := "broker.local";
     cfg_beacons := [("b1", [PyFloat 0; PyFloat 0]); ("b2", [PyFloat 10; PyFloat 0])];
     cfg_beacon_alert_radius := PyFloat 2 |}.

Definition demo_api : RobotAPI :=
  init "http://fleet.local" "fleet" "secret" (Some demo_config).

(** The same adapter after robotA has reported from (1, 0): it is
    registered at b1. *)
Definition demo_api_occupied : RobotAPI :=
  with_beacons demo_api
    [("b1", {| loc := [PyFloat 0; PyFloat 0]; occupant := Some "robotA" |});
     ("b2", {| loc := [PyFloat 10; PyFloat 0]; occupant := None |})].

(** An adapter whose first beacon is too far away for its squared
    distance to be a float. *)
Definition remote_api : RobotAPI :=
  init "http://fleet.local" "fleet" "secret"
       (Some {| cfg_user := "fleet"; cfg_password := "secret"; cfg_url := "broker.local";
                cfg_beacons := [("far", [PyFloat 0x1p+600; PyFloat 0]);
                                ("b1", [PyFloat 0; PyFloat 0])];
                cfg_beacon_alert_radius := PyFloat 2 |}).

(** Status bodies as the fleet manager sends them. *)
Definition status_body (fields : list (string * value)) : value :=
  PyDict [("data", PyDict fields); ("success", PyBool true); ("msg", PyStr "")].

(** A status whose data record has no [last_completed_request]. *)
Definition status_without_last : reply :=
  Json (status_body [("robot_name", PyStr "robot1"); ("battery", PyFloat 100)]).

(** A status whose data record has no [position]. *)
Definition status_without_position : reply :=
  Json (status_body [("robot_name", PyStr "robot1"); ("battery", PyFloat 100);
                     ("last_completed_request", PyInt 41)]).

Definition status_last (last : Z) : reply :=
  Json (status_body [("robot_name", PyStr "robot1"); ("battery", PyFloat 100);
                     ("last_completed_request", PyInt last)]).

Definition status_arrival (cmd_id : Z) (duration : value) : reply :=
  Json (status_body [("robot_name", PyStr "robot1");
                     ("destination_arrival",
                      PyDict [("cmd_id", PyInt cmd_id); ("duration", duration)])]).

(** ** The rest of the API *)

(** The body of the [try] that the command methods share: the value
    under ['success'] of the decoded answer; any exception on the way
    is caught and the method returns [False]. *)
Definition success_or_False (r : reply) : result value :=
  match r with
  | Json body =>
      match subscript body "success" with
      | Return accepted => Return accepted
      | Raise _ => Return (PyBool false)
      end
  | _ => Return (PyBool false)
  end.

(** [start_process], [stop] and [toggle_action]: no assertion stands
    before the [try]. *)
Definition start_process (robot_name : string) (cmd_id : Z) (process : string)
           (map_name : string) (r : reply) : result value :=
  success_or_False r.

Definition stop (robot_name : string) (cmd_id : Z) (r : reply) : result value :=
  success_or_False r.

Definition toggle_action (robot_name : string) (toggle_ : bool) (r : reply)
  : result value :=
  success_or_False r.

(** [retrieve_process_waypoints]: everything, the subscripts included,
    is inside the [try]. *)
Definition retrieve_process_waypoints (process : string) (r : reply) : result value :=
  match r with
  | Json body =>
      match (success <~ subscript body "success" ;;
             if negb (truthy success) then Return PyNone
             else
               d <~ subscript body "data" ;;
               subscript d "path") with
      | Return v => Return v
      | Raise _ => Return PyNone
      end
  | _ => Return PyNone
  end.

(** [v / 100.0]: true division of a number by the float hundred. *)
Definition div_100 (v : value) : result float :=
  match as_num v with
  | Some n => f <~ to_float n ;; Return (f / 100)%float
  | None => Raise TypeError
  end.

Definition battery_soc (robot_name : string) (r : reply) : result value :=
  let response := data (Some robot_name) r in
  if negb (is_None response) then
    d <~ subscript response "data" ;;
    battery <~ subscript d "battery" ;;
    soc <~ div_100 battery ;;
    Return (PyFloat soc)
  else Return PyNone.

(** [v.get(k, default)]. *)
Definition get_default (v : value) (k : string) (default : value) : result value :=
  match v with
  | PyDict items =>
      match dict_get items k with
      | Some x => Return x
      | None => Return default
      end
  | _ => Raise AttributeError
  end.

Definition requires_replan (robot_name : string) (r : reply) : result value :=
  let response := data (Some robot_name) r in
  if negb (is_None response) then
    d <~ subscript response "data" ;;
    get_default d "replan" (PyBool false)
  else Return (PyBool false).

(** ** More observations *)

(** The rule of the loop for one item: what its entry becomes. *)
Definition rule (robot_name : string) (robot_pos : list value) (rho : value)
           (item : string * beacon_data) : string * beacon_data :=
  (fst item,
   entry_after (exits robot_name robot_pos rho (snd item))
               (enters robot_pos rho (snd item))
               robot_name (snd item)).

(** The effects of the loop for one item. *)
Definition rule_trace (robot_name : string) (robot_pos : list value) (rho : value)
           (item : string * beacon_data) : list effect :=
  step_trace (exits robot_name robot_pos rho (snd item))
             (enters robot_pos rho (snd item))
             robot_name (fst item).

(** A status that [position] can read in full: flagged successful, with
    a position record that has its three fields. *)
Definition complete_status (body x y angle : value) : Prop :=
  exists success d p,
    subscript body "success" = Return success /\
    truthy success = true /\
    subscript body "data" = Return d /\
    subscript d "position" = Return p /\
    subscript p "x" = Return x /\
    subscript p "y" = Return y /\
    subscript p "yaw" = Return angle.

(** A float that is not below zero: a zero, a positive number, plus
    infinity, or a NaN. *)
Definition not_negative (x : spec_float) : bool :=
  match x with
  | S754_nan => true
  | S754_zero _ => true
  | S754_infinity s => negb s
  | S754_finite s _ _ => negb s
  end.

(** The ON refresh of an item within the radius. *)
Definition refresh (robot_name : string) (robot_pos : list value) (rho : value)
           (item : string * beacon_data) : list effect :=
  if enters robot_pos rho (snd item)
  then [ON (fst item); SetOccupant (fst item) (Some robot_name)]
  else [].

(** Whether an integer battery level comes out between 0.0 and 1.0. *)
Definition soc_in_range (z : Z) : bool :=
  match div_100 (PyInt z) with
  | Return soc => PrimFloat.leb 0 soc && PrimFloat.leb soc 1
  | Raise _ => false
  end.

(** ** Lemmas on dicts and on the order of numbers *)

Lemma is_cmp_Gt_Lt (o : option comparison) :
  is_cmp Gt o = true -> is_cmp Lt o = false.
Proof. destruct o as [[ | | ]| ]; simpl; congruence. Qed.

Lemma is_cmp_Eq_not (o : option comparison) :
  is_cmp Eq o = true -> is_cmp Lt o = false /\ is_cmp Gt o = false.
Proof. destruct o as [[ | | ]| ]; simpl; split; congruence. Qed.

Lemma float_eq_neither (d : float) (rho : value) :
  float_eq d rho = true ->
  float_lt d rho = Return false /\ float_gt d rho = Return false.
Proof.
  unfold float_eq, float_lt, float_gt.
  destruct (as_num rho) as [n| ]; [ | discriminate ].
  intros H. apply is_cmp_Eq_not in H. destruct H as [-> ->]. split; reflexivity.
Qed.

Lemma float_lt_not_gt (d : float) (rho : value) :
  float_lt d rho = Return true -> float_gt d rho = Return false.
Proof.
  unfold float_lt, float_gt.
  destruct (as_num rho) as [n| ]; [ | discriminate ].
  destruct (float_compare d n) as [[ | | ]| ]; simpl; congruence.
Qed.

Lemma float_gt_not_lt (d : float) (rho : value) :
  float_gt d rho = Return true -> float_lt d rho = Return false.
Proof.
  unfold float_lt, float_gt.
  destruct (as_num rho) as [n| ]; [ | discriminate ].
  destruct (float_compare d n) as [[ | | ]| ]; simpl; congruence.
Qed.

Lemma dict_get_In {A : Type} (items : list (string * A)) (k : string) (v : A) :
  NoDup (map fst items) -> In (k, v) items -> dict_get items k = Some v.
Proof.
  induction items as [ | [k' v'] rest IH]; simpl; [ tauto | ].
  intros Hnd [Heq | Hin].
  - inversion Heq; subst. now rewrite String.eqb_refl.
  - inversion Hnd as [ | ? ? Hnot Hnd']; subst.
    destruct (String.eqb_spec k' k) as [-> | _].
    + exfalso. apply Hnot. now apply (in_map fst) in Hin.
    + now apply IH.
Qed.

Lemma dict_get_key {A : Type} (items : list (string * A)) (k : string) :
  In k (map fst items) -> dict_get items k <> None.
Proof.
  induction items as [ | [k' v'] rest IH]; simpl; [ tauto | ].
  destruct (String.eqb_spec k' k) as [-> | Hne]; [ discriminate | ].
  intros [Heq | Hin]; [ congruence | now apply IH ].
Qed.

Lemma store_occupant_keys bs k r :
  map fst (store_occupant bs k r) = map fst bs.
Proof.
  induction bs as [ | [k' d] rest IH]; simpl; [ reflexivity | ].
  destruct (String.eqb k' k); simpl; [ reflexivity | now rewrite IH ].
Qed.

Lemma store_occupant_other bs k r k' :
  k' <> k -> dict_get (store_occupant bs k r) k' = dict_get bs k'.
Proof.
  intros Hne. induction bs as [ | [k0 d] rest IH]; simpl; [ reflexivity | ].
  destruct (String.eqb_spec k0 k) as [-> | _]; simpl.
  - destruct (String.eqb_spec k k') as [-> | _]; [ congruence | reflexivity ].
  - now rewrite IH.
Qed.

Lemma store_occupant_same bs k r d :
  dict_get bs k = Some d ->
  dict_get (store_occupant bs k r) k = Some {| loc := loc d; occupant := r |}.
Proof.
  induction bs as [ | [k0 d0] rest IH]; simpl; [ discriminate | ].
  destruct (String.eqb_spec k0 k) as [-> | Hne]; simpl.
  - intros [= ->]. now rewrite String.eqb_refl.
  - destruct (String.eqb_spec k0 k); [ congruence | apply IH ].
Qed.

(** ** What an iteration leaves behind *)

Lemma after_step_keys far near robot_name beacon_id self :
  map fst (beacons (after_step far near robot_name beacon_id self))
  = map fst (beacons self).
Proof.
  unfold after_step. destruct far; [ | destruct near ]; cbn [beacons with_beacons];
    auto using store_occupant_keys.
Qed.

Lemma after_step_radius far near robot_name beacon_id self :
  beacon_radius (after_step far near robot_name beacon_id self) = beacon_radius self.
Proof. unfold after_step. destruct far; [ | destruct near ]; reflexivity. Qed.

Lemma after_step_client far near robot_name beacon_id self :
  mqtt_client (after_step far near robot_name beacon_id self) = mqtt_client self.
Proof. unfold after_step. destruct far; [ | destruct near ]; reflexivity. Qed.

Lemma after_step_other far near robot_name beacon_id self k :
  k <> beacon_id ->
  dict_get (beacons (after_step far near robot_name beacon_id self)) k
  = dict_get (beacons self) k.
Proof.
  intros Hne. unfold after_step.
  destruct far; [ | destruct near ]; cbn [beacons with_beacons];
    auto using store_occupant_other.
Qed.

Lemma after_step_same far near robot_name beacon_id self bd :
  dict_get (beacons self) beacon_id = Some bd ->
  dict_get (beacons (after_step far near robot_name beacon_id self)) beacon_id
  = Some (entry_after far near robot_name bd).
Proof.
  intros Hget. unfold after_step, entry_after.
  destruct far; [ | destruct near ]; cbn [beacons with_beacons];
    auto using store_occupant_same.
Qed.

Lemma step_trace_other far near robot_name beacon_id k :
  k <> beacon_id ->
  Forall (fun e => about k e = false) (step_trace far near robot_name beacon_id).
Proof.
  intros Hne. assert (String.eqb beacon_id k = false) as Hf
      by (apply String.eqb_neq; congruence).
  unfold step_trace, transition. cbn [fst snd].
  destruct far, near; cbn [app]; repeat constructor; exact Hf.
Qed.

Lemma step_trace_transitions far near robot_name beacon_id :
  step_trace far near robot_name beacon_id
  = flat_map transition
      ((if far then [(beacon_id, None)] else []) ++
       (if near then [(beacon_id, Some robot_name)] else [])).
Proof. destruct far, near; reflexivity. Qed.

Lemma for_each_cons {A : Type} (x : A) (rest : list A) (body : A -> M unit) self :
  for_each (x :: rest) body self
  = match body x self with
    | (Return _, self1, t1) =>
        (result_of (for_each rest body self1),
         state_of (for_each rest body self1),
         t1 ++ trace_of (for_each rest body self1))
    | (Raise e, self1, t1) => (Raise e, self1, t1)
    end.
Proof.
  cbn [for_each]. unfold bind, result_of, state_of, trace_of.
  destruct (body x self) as [[[u | e] self1] t1]; [ | reflexivity ].
  destruct (for_each rest body self1) as [[r self2] t2]. reflexivity.
Qed.

Lemma for_each_app {A : Type} (items1 items2 : list A) (body : A -> M unit) :
  forall self,
    for_each (items1 ++ items2) body self
    = match for_each items1 body self with
      | (Return _, self1, t1) =>
          (result_of (for_each items2 body self1),
           state_of (for_each items2 body self1),
           t1 ++ trace_of (for_each items2 body self1))
      | (Raise e, self1, t1) => (Raise e, self1, t1)
      end.
Proof.
  induction items1 as [ | x rest IH]; intros self.
  - cbn. unfold result_of, state_of, trace_of.
    destruct (for_each items2 body self) as [[r s] t]. reflexivity.
  - cbn [app]. rewrite !for_each_cons.
    destruct (body x self) as [[[u | e] self1] t1]; [ | reflexivity ].
    rewrite IH. unfold result_of, state_of, trace_of.
    destruct (for_each rest body self1) as [[[u' | e'] self2] t2]; cbn [fst snd].
    + now rewrite app_assoc.
    + reflexivity.
Qed.

(** ** The loop of [update_beacon], for one update

    The reporting robot and its position are fixed throughout a call. *)

Section Loop.

Variable robot_name : string.
Variable robot_pos : list value.

Lemma beacon_step_returns beacon_id bd self d n :
  dict_get (beacons self) beacon_id <> None ->
  _dist (loc bd) robot_pos = Return d ->
  as_num (beacon_radius self) = Some n ->
  let far := occupant_is (occupant bd) robot_name && is_cmp Gt (float_compare d n) in
  let near := is_cmp Lt (float_compare d n) in
  beacon_step robot_name robot_pos (beacon_id, bd) self
  = (Return tt, after_step far near robot_name beacon_id self,
     step_trace far near robot_name beacon_id).
Proof.
  intros Hkey Hd Hn far near. subst far near.
  destruct (dict_get (beacons self) beacon_id) as [d0| ] eqn:Hget; [ | congruence ].
  unfold beacon_step, after_step, step_trace, transition, float_gt, float_lt,
    bind, lift, gets, ret, _beacon_on, _beacon_off, set_occupant.
  cbn [fst snd]. rewrite Hd.
  destruct (occupant_is (occupant bd) robot_name);
    destruct (float_compare d n) as [[ | | ]| ] eqn:Hc;
    repeat (cbv beta iota; cbn [is_cmp andb app beacons with_beacons beacon_radius];
            rewrite ?Hn, ?Hc, ?Hget);
    reflexivity.
Qed.

Lemma beacon_step_raises beacon_id bd self :
  (exists e, _dist (loc bd) robot_pos = Raise e) \/ as_num (beacon_radius self) = None ->
  exists e, beacon_step robot_name robot_pos (beacon_id, bd) self = (Raise e, self, []).
Proof.
  unfold beacon_step, float_gt, float_lt, bind, lift, gets, ret. cbn [fst snd].
  intros [[e He] | Hn].
  - exists e. rewrite He. destruct (occupant_is _ _); reflexivity.
  - destruct (_dist (loc bd) robot_pos) as [d | e].
    + exists TypeError.
      destruct (occupant_is _ _); cbv beta iota; rewrite Hn; reflexivity.
    + exists e. destruct (occupant_is _ _); reflexivity.
Qed.

Lemma exits_not_enters rho bd :
  exits robot_name robot_pos rho bd = true -> enters robot_pos rho bd = false.
Proof.
  unfold exits, enters. intros H. apply andb_prop in H. destruct H as [_ H].
  destruct (_dist (loc bd) robot_pos) as [d | e]; [ | reflexivity ].
  destruct (float_gt d rho) as [[ | ] | e] eqn:Hgt; try discriminate.
  now rewrite (float_gt_not_lt d rho Hgt).
Qed.

(** An iteration, in one equation. *)
Lemma beacon_step_eq beacon_id bd self :
  dict_get (beacons self) beacon_id <> None ->
  beacon_step robot_name robot_pos (beacon_id, bd) self
  = (step_result robot_pos (beacon_radius self) bd,
     after_step (exits robot_name robot_pos (beacon_radius self) bd)
                (enters robot_pos (beacon_radius self) bd)
                robot_name beacon_id self,
     step_trace (exits robot_name robot_pos (beacon_radius self) bd)
                (enters robot_pos (beacon_radius self) bd)
                robot_name beacon_id).
Proof.
  intros Hkey. unfold exits, enters, step_result, float_gt, float_lt.
  destruct (_dist (loc bd) robot_pos) as [d | e] eqn:Hd.
  - destruct (as_num (beacon_radius self)) as [n | ] eqn:Hn.
    + now apply beacon_step_returns.
    + destruct (beacon_step_raises beacon_id bd self) as [e He];
        [ now right | ].
      rewrite andb_false_r. rewrite He.
      revert He. unfold beacon_step, float_gt, float_lt, bind, lift, gets, ret.
      cbn [fst snd]. rewrite Hd.
      destruct (occupant_is _ _); cbv beta iota; rewrite Hn; intros [= <-]; reflexivity.
  - destruct (beacon_step_raises beacon_id bd self) as [e' He];
      [ left; now exists e | ].
    rewrite andb_false_r. rewrite He.
    revert He. unfold beacon_step, bind, lift. cbn [fst snd]. rewrite Hd.
    destruct (occupant_is _ _); intros [= <-]; reflexivity.
Qed.

(** What the loop keeps: the keys, the radius and the client; and its
    trace is a sequence of whole transitions. *)
Lemma for_each_keeps items : forall self,
  (forall item, In item items -> In (fst item) (map fst (beacons self))) ->
  let o := for_each items (beacon_step robot_name robot_pos) self in
  map fst (beacons (state_of o)) = map fst (beacons self) /\
  beacon_radius (state_of o) = beacon_radius self /\
  mqtt_client (state_of o) = mqtt_client self /\
  exists trs, trace_of o = flat_map transition trs.
Proof.
  induction items as [ | [k bd] rest IH]; intros self Hkeys.
  - cbn. repeat split. now exists [].
  - cbv zeta. rewrite for_each_cons.
    rewrite beacon_step_eq
      by (apply dict_get_key; apply (Hkeys (k, bd)); now left).
    set (far := exits _ _ _ _). set (near := enters _ _ _).
    destruct (step_result robot_pos (beacon_radius self) bd) as [u | e].
    + destruct (IH (after_step far near robot_name k self)) as (Hk & Hr & Hc & trs & Ht).
      { intros item Hin. rewrite after_step_keys. apply Hkeys. now right. }
      unfold state_of, trace_of in *. cbn [fst snd].
      rewrite Hk, Hr, Hc, Ht, after_step_keys, after_step_radius, after_step_client.
      repeat split. rewrite step_trace_transitions.
      eexists. symmetry. apply flat_map_app.
    + unfold state_of, trace_of. cbn [fst snd].
      rewrite after_step_keys, after_step_radius, after_step_client.
      repeat split. rewrite step_trace_transitions. eexists. reflexivity.
Qed.

(** The items of other beacons leave the entry of [k] alone and
    perform nothing that concerns it. *)
Lemma for_each_frame k items : forall self,
  (forall item, In item items -> In (fst item) (map fst (beacons self))) ->
  (forall item, In item items -> fst item <> k) ->
  let o := for_each items (beacon_step robot_name robot_pos) self in
  dict_get (beacons (state_of o)) k = dict_get (beacons self) k /\
  Forall (fun e => about k e = false) (trace_of o).
Proof.
  induction items as [ | [k' bd] rest IH]; intros self Hkeys Hother.
  - cbn. split; [ reflexivity | constructor ].
  - cbv zeta. rewrite for_each_cons.
    rewrite beacon_step_eq
      by (apply dict_get_key; apply (Hkeys (k', bd)); now left).
    assert (k <> k') as Hne by (intros ->; now apply (Hother (k', bd)); [ left | ]).
    set (far := exits _ _ _ _). set (near := enters _ _ _).
    destruct (step_result robot_pos (beacon_radius self) bd) as [u | e].
    + destruct (IH (after_step far near robot_name k' self)) as (Hg & Ht).
      { intros item Hin. rewrite after_step_keys. apply Hkeys. now right. }
      { intros item Hin. apply Hother. now right. }
      unfold state_of, trace_of in *. cbn [fst snd].
      rewrite Hg, after_step_other by assumption. split; [ reflexivity | ].
      apply Forall_app. split; [ now apply step_trace_other | assumption ].
    + unfold state_of, trace_of. cbn [fst snd].
      rewrite after_step_other by assumption. split; [ reflexivity | ].
      now apply step_trace_other.
Qed.

(** The loop, seen from one beacon [k] of the dict: its own iteration is
    the only one that touches its entry or signals for it, and a call
    that returns has run it. *)
Lemma for_each_target k bd l1 l2 self :
  (forall item, In item (l1 ++ (k, bd) :: l2) -> In (fst item) (map fst (beacons self))) ->
  NoDup (map fst (l1 ++ (k, bd) :: l2)) ->
  dict_get (beacons self) k = Some bd ->
  let o := for_each (l1 ++ (k, bd) :: l2) (beacon_step robot_name robot_pos) self in
  let far := exits robot_name robot_pos (beacon_radius self) bd in
  let near := enters robot_pos (beacon_radius self) bd in
  exists (reached : bool) (t1 t2 : list effect),
    trace_of o = t1 ++ (if reached then step_trace far near robot_name k else []) ++ t2 /\
    Forall (fun e => about k e = false) t1 /\
    Forall (fun e => about k e = false) t2 /\
    dict_get (beacons (state_of o)) k
    = Some (if reached then entry_after far near robot_name bd else bd) /\
    (result_of o = Return tt -> reached = true).
Proof.
  intros Hkeys Hnd Hget o far near. subst o.
  rewrite map_app in Hnd. cbn [map fst] in Hnd.
  assert (forall item, In item l1 -> fst item <> k) as Hl1.
  { intros item Hin Heq. apply NoDup_remove_2 in Hnd. apply Hnd.
    apply in_or_app. left. rewrite <- Heq. now apply in_map. }
  assert (forall item, In item l2 -> fst item <> k) as Hl2.
  { intros item Hin Heq. apply NoDup_remove_2 in Hnd. apply Hnd.
    apply in_or_app. right. rewrite <- Heq. now apply in_map. }
  assert (forall item, In item l1 -> In (fst item) (map fst (beacons self))) as Hk1.
  { intros item Hin. apply Hkeys. apply in_or_app. now left. }
  assert (forall item, In item l2 -> In (fst item) (map fst (beacons self))) as Hk2.
  { intros item Hin. apply Hkeys. apply in_or_app. right. now right. }
  rewrite for_each_app.
  pose proof (for_each_frame k l1 self Hk1 Hl1) as [Hg1 Ht1].
  pose proof (for_each_keeps l1 self Hk1) as (Hks1 & Hr1 & _ & _).
  destruct (for_each l1 (beacon_step robot_name robot_pos) self) as [[[u | e] self1] t1];
    unfold state_of, trace_of, result_of in *; cbn [fst snd] in *.
  - rewrite for_each_cons.
    rewrite beacon_step_eq by (rewrite Hg1, Hget; discriminate).
    rewrite Hr1. fold far near.
    destruct (step_result robot_pos (beacon_radius self) bd) as [u' | e].
    + set (self2 := after_step far near robot_name k self1).
      pose proof (for_each_frame k l2 self2) as Hf2.
      destruct Hf2 as [Hg2 Ht2].
      { intros item Hin. subst self2. rewrite after_step_keys, Hks1. now apply Hk2. }
      { exact Hl2. }
      unfold state_of, trace_of, result_of in *. cbn [fst snd] in *.
      exists true, t1, (snd (for_each l2 (beacon_step robot_name robot_pos) self2)).
      repeat split; try assumption.
      rewrite Hg2. subst self2. apply after_step_same. now rewrite Hg1.
    + cbn [fst snd].
      exists true, t1, []. rewrite app_nil_r.
      repeat split; try assumption; [ constructor | ].
      apply after_step_same. now rewrite Hg1.
  - exists false, t1, []. cbn [app]. rewrite app_nil_r.
    repeat split; try assumption; [ constructor | now rewrite Hg1 | discriminate ].
Qed.

Lemma for_each_returns items : forall self,
  (forall item, In item items -> In (fst item) (map fst (beacons self))) ->
  (forall item, In item items ->
                step_result robot_pos (beacon_radius self) (snd item) = Return tt) ->
  result_of (for_each items (beacon_step robot_name robot_pos) self) = Return tt.
Proof.
  induction items as [ | [k bd] rest IH]; intros self Hkeys Hok; [ reflexivity | ].
  rewrite for_each_cons.
  rewrite beacon_step_eq by (apply dict_get_key; apply (Hkeys (k, bd)); now left).
  pose proof (Hok (k, bd) (or_introl eq_refl)) as Hstep. cbn [snd] in Hstep.
  rewrite Hstep. unfold result_of at 1. cbn [fst]. apply IH.
  - intros item Hin. rewrite after_step_keys. apply Hkeys. now right.
  - intros item Hin. rewrite after_step_radius. apply Hok. now right.
Qed.

End Loop.

(** ** Counting signals in a trace *)

Lemma emitted_app e t1 t2 : emitted e (t1 ++ t2) = (emitted e t1 + emitted e t2)%nat.
Proof. apply count_occ_app. Qed.

Lemma about_ON k : about k (ON k) = true.
Proof. apply String.eqb_refl. Qed.

Lemma about_OFF k : about k (OFF k) = true.
Proof. apply String.eqb_refl. Qed.

Lemma not_about_not_In k e t :
  about k e = true -> Forall (fun e' => about k e' = false) t -> ~ In e t.
Proof.
  intros He Hall Hin. rewrite Forall_forall in Hall. apply Hall in Hin. congruence.
Qed.

Lemma not_about_emitted k e t :
  about k e = true -> Forall (fun e' => about k e' = false) t -> emitted e t = 0%nat.
Proof.
  intros He Hall. apply count_occ_not_In. now apply not_about_not_In with (k := k).
Qed.

Lemma emitted_step_trace_ON far near robot_name k :
  emitted (ON k) (step_trace far near robot_name k) = (if near then 1 else 0)%nat.
Proof.
  unfold emitted, step_trace, transition, ON, OFF. cbn [fst snd].
  destruct far, near; cbn [app];
    repeat first [ rewrite count_occ_cons_eq by reflexivity
                 | rewrite count_occ_cons_neq by discriminate ];
    reflexivity.
Qed.

Lemma emitted_step_trace_OFF far near robot_name k :
  emitted (OFF k) (step_trace far near robot_name k) = (if far then 1 else 0)%nat.
Proof.
  unfold emitted, step_trace, transition, ON, OFF. cbn [fst snd].
  destruct far, near; cbn [app];
    repeat first [ rewrite count_occ_cons_eq by reflexivity
                 | rewrite count_occ_cons_neq by discriminate ];
    reflexivity.
Qed.

(** Counts a signal of beacon [k] in a trace split around the
    iteration of [k]. *)
Ltac count_signal Ht H1 H2 :=
  rewrite Ht, !emitted_app;
  rewrite ?emitted_step_trace_ON, ?emitted_step_trace_OFF;
  rewrite ?(not_about_emitted _ _ _ (about_ON _) H1),
    ?(not_about_emitted _ _ _ (about_ON _) H2),
    ?(not_about_emitted _ _ _ (about_OFF _) H1),
    ?(not_about_emitted _ _ _ (about_OFF _) H2);
  reflexivity.

(** ** [update_beacon] as a whole *)

Lemma wf_client self item :
  wf self -> In item (beacons self) -> mqtt_client self <> None.
Proof.
  intros [_ Hnone] Hin Hc. rewrite (Hnone Hc) in Hin. exact Hin.
Qed.

Lemma update_beacon_target robot_name robot_pos k bd self :
  wf self ->
  In (k, bd) (beacons self) ->
  let o := update_beacon robot_name robot_pos self in
  let far := exits robot_name robot_pos (beacon_radius self) bd in
  let near := enters robot_pos (beacon_radius self) bd in
  exists (reached : bool) (t1 t2 : list effect),
    trace_of o = t1 ++ (if reached then step_trace far near robot_name k else []) ++ t2 /\
    Forall (fun e => about k e = false) t1 /\
    Forall (fun e => about k e = false) t2 /\
    dict_get (beacons (state_of o)) k
    = Some (if reached then entry_after far near robot_name bd else bd) /\
    (result_of o = Return tt -> reached = true).
Proof.
  intros Hwf Hin. pose proof (wf_client self (k, bd) Hwf Hin) as Hc.
  destruct Hwf as [Hnd _]. unfold update_beacon.
  destruct (mqtt_client self) as [c | ]; [ | congruence ].
  destruct (in_split _ _ Hin) as (l1 & l2 & Hsplit).
  pose proof (for_each_target robot_name robot_pos k bd l1 l2 self) as H.
  rewrite <- Hsplit in H. apply H.
  - intros item Hi. now apply in_map.
  - assumption.
  - now apply dict_get_In.
Qed.

(** With every distance computable and a numeric radius, the call returns. *)
Lemma update_beacon_returns robot_name robot_pos self :
  dists_defined self robot_pos ->
  as_num (beacon_radius self) <> None ->
  result_of (update_beacon robot_name robot_pos self) = Return tt.
Proof.
  intros Hd Hn. unfold update_beacon.
  destruct (mqtt_client self); [ | reflexivity ].
  apply for_each_returns.
  - intros item Hin. now apply in_map.
  - intros item Hin. unfold step_result.
    destruct (Hd item Hin) as [d ->].
    destruct (as_num (beacon_radius self)); [ reflexivity | congruence ].
Qed.

(** The object invariant is kept by [update_beacon]. *)
Lemma update_beacon_wf robot_name robot_pos self :
  wf self -> wf (state_of (update_beacon robot_name robot_pos self)).
Proof.
  intros [Hnd Hnone]. unfold update_beacon.
  destruct (mqtt_client self) as [c | ] eqn:Hc.
  - pose proof (for_each_keeps robot_name robot_pos (beacons self) self) as Hk.
    destruct Hk as (Hkeys & _ & Hcl & _).
    { intros item Hin. now apply in_map. }
    split.
    + now rewrite Hkeys.
    + rewrite Hcl, Hc. discriminate.
  - cbn. split; [ assumption | intros _; now apply Hnone ].
Qed.

Lemma dict_set_keys {A : Type} (items : list (string * A)) k v :
  NoDup (map fst items) -> NoDup (map fst (dict_set items k v)) /\
  forall k', In k' (map fst (dict_set items k v)) <-> k' = k \/ In k' (map fst items).
Proof.
  induction items as [ | [k0 v0] rest IH]; cbn [dict_set map fst]; intros Hnd.
  - split; [ repeat constructor; auto | ]. intros k'. cbn. intuition congruence.
  - inversion Hnd as [ | ? ? Hnot Hnd']; subst.
    destruct (String.eqb_spec k0 k) as [-> | Hne]; cbn [map fst].
    + split; [ assumption | ]. intros k'. cbn. intuition congruence.
    + destruct (IH Hnd') as [IH1 IH2]. split.
      * constructor; [ | assumption ]. rewrite IH2. intuition congruence.
      * intros k'. cbn. rewrite IH2. intuition congruence.
Qed.

(** [__init__] establishes the invariant, with every beacon idle. *)
Lemma init_wf prefix_ user_ password_ config :
  wf (init prefix_ user_ password_ config).
Proof.
  destruct config as [c | ]; cbn.
  - split; [ | discriminate ]. cbn [beacons].
    assert (forall items acc, NoDup (map fst acc) ->
              NoDup (map fst (fold_left
                (fun (bs : list (string * beacon_data)) (item : string * list value) =>
                   dict_set bs (fst item) {| loc := snd item; occupant := None |})
                items acc))) as H.
    { induction items as [ | x rest IH]; intros acc Hacc; cbn; [ assumption | ].
      apply IH. now apply dict_set_keys. }
    apply H. constructor.
  - split; [ constructor | reflexivity ].
Qed.

Lemma dict_set_Forall {A : Type} (P : A -> Prop) (items : list (string * A)) k v :
  P v -> Forall (fun item => P (snd item)) items ->
  Forall (fun item => P (snd item)) (dict_set items k v).
Proof.
  intros Hv. induction items as [ | [k0 v0] rest IH]; cbn [dict_set]; intros Hall.
  - repeat constructor. exact Hv.
  - inversion Hall as [ | ? ? H0 Hrest]; subst.
    destruct (String.eqb k0 k); constructor; auto.
Qed.

(** X22.  The initial state of the state machine: after [__init__]
    every configured beacon is idle, whatever the configuration. *)
Theorem init_all_idle :
  forall prefix_ user_ password_ config,
    Forall (fun item => occupant (snd item) = None)
           (beacons (init prefix_ user_ password_ config)).
Proof.
  intros prefix_ user_ password_ [c | ]; cbn [init beacons]; [ | constructor ].
  assert (forall items acc,
             Forall (fun item : string * beacon_data => occupant (snd item) = None) acc ->
             Forall (fun item : string * beacon_data => occupant (snd item) = None)
                    (fold_left
                       (fun (bs : list (string * beacon_data)) (item : string * list value) =>
                          dict_set bs (fst item) {| loc := snd item; occupant := None |})
                       items acc)) as H.
  { induction items as [ | x rest IH]; intros acc Hacc; cbn [fold_left]; [ assumption | ].
    apply IH. now apply (dict_set_Forall (fun bd => occupant bd = None)). }
  apply H. constructor.
Qed.

(** ** The beacon state machine *)

Lemma exits_eq robot_name robot_pos rho bd d :
  _dist (loc bd) robot_pos = Return d ->
  exits robot_name robot_pos rho bd
  = occupant_is (occupant bd) robot_name &&
    match float_gt d rho with Return b => b | Raise _ => false end.
Proof. intros Hd. unfold exits. now rewrite Hd. Qed.

Lemma enters_eq robot_pos rho bd d :
  _dist (loc bd) robot_pos = Return d ->
  enters robot_pos rho bd
  = match float_lt d rho with Return b => b | Raise _ => false end.
Proof. intros Hd. unfold enters. now rewrite Hd. Qed.

Lemma occupant_is_Some robot_name : occupant_is (Some robot_name) robot_name = true.
Proof. apply String.eqb_refl. Qed.

Lemma occupant_is_other current robot_name :
  current <> Some robot_name -> occupant_is current robot_name = false.
Proof.
  destruct current as [r | ]; [ | reflexivity ]. cbn.
  destruct (String.eqb_spec r robot_name); congruence.
Qed.

(** C1.  On the boundary nothing happens to a beacon: when the distance
    from beacon [beacon_id] to the reported position equals the radius
    exactly, a call of [update_beacon] publishes neither ON nor OFF for
    it and leaves its entry, occupant included, as it was.  This holds
    whatever the other beacons do, even when the call ends in an
    exception.  The distance is the float that [_dist] returns, on
    whatever [pow] the platform has. *)
Theorem update_beacon_boundary :
  forall self robot_name robot_pos beacon_id bd d,
    wf self ->
    In (beacon_id, bd) (beacons self) ->
    _dist (loc bd) robot_pos = Return d ->
    float_eq d (beacon_radius self) = true ->
    let o := update_beacon robot_name robot_pos self in
    ~ In (ON beacon_id) (trace_of o) /\
    ~ In (OFF beacon_id) (trace_of o) /\
    dict_get (beacons (state_of o)) beacon_id = Some bd.
Proof.
  intros self robot_name robot_pos k bd d Hwf Hin Hd Heq o. subst o.
  destruct (float_eq_neither d _ Heq) as [Hlt Hgt].
  destruct (update_beacon_target robot_name robot_pos k bd self Hwf Hin)
    as (reached & t1 & t2 & Ht & H1 & H2 & Hget & _).
  rewrite (exits_eq _ _ _ _ d Hd), (enters_eq _ _ _ d Hd), Hlt, Hgt, andb_false_r in *.
  assert (trace_of (update_beacon robot_name robot_pos self) = t1 ++ t2) as Ht'.
  { rewrite Ht. now destruct reached. }
  assert (Forall (fun e => about k e = false)
                 (trace_of (update_beacon robot_name robot_pos self))) as Hall.
  { rewrite Ht'. apply Forall_app. now split. }
  repeat split.
  - apply (not_about_not_In k); [ apply about_ON | exact Hall ].
  - apply (not_about_not_In k); [ apply about_OFF | exact Hall ].
  - rewrite Hget. now destruct reached.
Qed.

(** C2.  Entry and refresh: when beacon [beacon_id] is closer to the
    reported position than the radius, a call of [update_beacon] makes
    the reporting robot its occupant and publishes ON for it exactly
    once (and no OFF), whoever occupied it before.  The call is one
    that runs the whole loop: every configured beacon's distance to the
    position is computable. *)
Theorem update_beacon_entry :
  forall self robot_name robot_pos beacon_id bd d,
    wf self ->
    In (beacon_id, bd) (beacons self) ->
    dists_defined self robot_pos ->
    _dist (loc bd) robot_pos = Return d ->
    float_lt d (beacon_radius self) = Return true ->
    let o := update_beacon robot_name robot_pos self in
    result_of o = Return tt /\
    dict_get (beacons (state_of o)) beacon_id
    = Some {| loc := loc bd; occupant := Some robot_name |} /\
    emitted (ON beacon_id) (trace_of o) = 1%nat /\
    emitted (OFF beacon_id) (trace_of o) = 0%nat.
Proof.
  intros self robot_name robot_pos k bd d Hwf Hin Hall Hd Hlt o. subst o.
  assert (result_of (update_beacon robot_name robot_pos self) = Return tt) as Hret.
  { apply update_beacon_returns; [ assumption | ].
    unfold float_lt in Hlt. destruct (as_num (beacon_radius self)); congruence. }
  destruct (update_beacon_target robot_name robot_pos k bd self Hwf Hin)
    as (reached & t1 & t2 & Ht & H1 & H2 & Hget & Hreached).
  rewrite (Hreached Hret) in *.
  rewrite (exits_eq _ _ _ _ d Hd), (enters_eq _ _ _ d Hd),
    Hlt, (float_lt_not_gt _ _ Hlt), andb_false_r in *.
  repeat split.
  - assumption.
  - exact Hget.
  - count_signal Ht H1 H2.
  - count_signal Ht H1 H2.
Qed.

(** C3.  Exit: when the reporting robot is the occupant of beacon
    [beacon_id] and the beacon is farther from the reported position
    than the radius, a call of [update_beacon] (one that runs the whole
    loop) clears the occupant and publishes OFF for the beacon exactly
    once, and no ON.  When the occupant is anything but the reporting
    robot, no OFF is published for the beacon, whatever the distance
    and however the call ends. *)
Theorem update_beacon_exit :
  forall self robot_name robot_pos beacon_id bd,
    wf self ->
    In (beacon_id, bd) (beacons self) ->
    let o := update_beacon robot_name robot_pos self in
    (forall d,
        occupant bd = Some robot_name ->
        dists_defined self robot_pos ->
        _dist (loc bd) robot_pos = Return d ->
        float_gt d (beacon_radius self) = Return true ->
        result_of o = Return tt /\
        dict_get (beacons (state_of o)) beacon_id
        = Some {| loc := loc bd; occupant := None |} /\
        emitted (OFF beacon_id) (trace_of o) = 1%nat /\
        emitted (ON beacon_id) (trace_of o) = 0%nat) /\
    (occupant bd <> Some robot_name ->
     emitted (OFF beacon_id) (trace_of o) = 0%nat).
Proof.
  intros self robot_name robot_pos k bd Hwf Hin o. subst o.
  destruct (update_beacon_target robot_name robot_pos k bd self Hwf Hin)
    as (reached & t1 & t2 & Ht & H1 & H2 & Hget & Hreached).
  split.
  - intros d Hocc Hall Hd Hgt.
    assert (result_of (update_beacon robot_name robot_pos self) = Return tt) as Hret.
    { apply update_beacon_returns; [ assumption | ].
      unfold float_gt in Hgt. destruct (as_num (beacon_radius self)); congruence. }
    rewrite (Hreached Hret) in *.
    rewrite (exits_eq _ _ _ _ d Hd), (enters_eq _ _ _ d Hd),
      Hgt, (float_gt_not_lt _ _ Hgt), Hocc, occupant_is_Some in *.
    cbn [andb entry_after] in *.
    repeat split.
    + assumption.
    + exact Hget.
    + count_signal Ht H1 H2.
    + count_signal Ht H1 H2.
  - intros Hocc. unfold exits in Ht.
    rewrite (occupant_is_other _ _ Hocc) in Ht. cbn [andb] in Ht.
    rewrite Ht, !emitted_app,
      (not_about_emitted k _ t1 (about_OFF k) H1),
      (not_about_emitted k _ t2 (about_OFF k) H2).
    destruct reached; [ rewrite emitted_step_trace_OFF | ]; reflexivity.
Qed.

(** C8, as the source has it.  Every effect of a call of [update_beacon]
    belongs to a whole transition, and in a transition the publish comes
    first: the occupant is written only after [publish] has returned. *)
Theorem update_beacon_publishes_first :
  forall self robot_name robot_pos,
  exists trs : list (string * option string),
    trace_of (update_beacon robot_name robot_pos self) = flat_map transition trs.
Proof.
  intros self robot_name robot_pos. unfold update_beacon.
  destruct (mqtt_client self) as [c | ]; [ | now exists [] ].
  apply for_each_keeps. intros item Hin. now apply in_map.
Qed.

(** ** The demo adapter *)

Lemma demo_api_wf : wf demo_api.
Proof. apply init_wf. Qed.

Lemma demo_api_occupied_wf : wf demo_api_occupied.
Proof.
  split; [ | discriminate ].
  cbn. repeat constructor; cbn; intuition discriminate.
Qed.

Lemma demo_dists_defined x y :
  (exists d, _dist [PyFloat 0; PyFloat 0] [PyFloat x; PyFloat y] = Return d) ->
  (exists d, _dist [PyFloat 10; PyFloat 0] [PyFloat x; PyFloat y] = Return d) ->
  dists_defined demo_api [PyFloat x; PyFloat y] /\
  dists_defined demo_api_occupied [PyFloat x; PyFloat y].
Proof.
  intros H1 H2. split; intros item [<- | [<- | []]]; assumption.
Qed.

(** ** Status queries and commands *)

(** C4, as the source has it.  On every status whose data record lacks
    [last_completed_request], [navigation_completed] raises [KeyError]
    to its caller instead of returning false: the field is read by
    subscript, outside any [try]. *)
Theorem navigation_completed_KeyError :
  forall robot_name cmd_id body fields,
    get body "data" = Return (PyDict fields) ->
    dict_get fields "last_completed_request" = None ->
    navigation_completed robot_name cmd_id (Json body) = Raise KeyError.
Proof.
  intros robot_name cmd_id body fields Hd Hl. unfold navigation_completed. cbn [data].
  destruct body; try discriminate. cbn [is_None negb].
  rewrite Hd. cbn. now rewrite Hl.
Qed.

(** The failing input: a successful status with robot name and battery
    but no completed request. *)
Lemma navigation_completed_missing_field :
  navigation_completed "robot1" 42 status_without_last = Raise KeyError.
Proof.
  apply (navigation_completed_KeyError "robot1" 42
           (status_body [("robot_name", PyStr "robot1"); ("battery", PyFloat 100)])
           [("robot_name", PyStr "robot1"); ("battery", PyFloat 100)]);
    reflexivity.
Defined.

(** A field that is present and null is no completion. *)
Lemma navigation_completed_null robot_name cmd_id :
  navigation_completed robot_name cmd_id
    (Json (status_body [("last_completed_request", PyNone)])) = Return false.
Proof. reflexivity. Qed.

Lemma navigation_completed_no_snapshot robot_name cmd_id r :
  is_None (data None r) = true ->
  navigation_completed robot_name cmd_id r = Return false.
Proof.
  intros H. unfold navigation_completed.
  change (data (Some robot_name) r) with (data None r). now rewrite H.
Qed.

Lemma navigation_completed_reports robot_name cmd_id r last :
  reports_last r last ->
  navigation_completed robot_name cmd_id r = Return (eq_int last cmd_id).
Proof.
  intros (d & Hd & Hnone & Hl). unfold navigation_completed.
  change (data (Some robot_name) r) with (data None r).
  destruct (data None r); try discriminate Hd. cbn [is_None negb].
  rewrite Hd. cbn [rbind]. rewrite Hnone. cbn [negb]. now rewrite Hl.
Qed.

(** C5 as the specification words it fails: after a poll that reported
    command 42 as completed, a poll whose snapshot reports 43 answers
    false. *)
Lemma completion_does_not_latch :
  ~ stays_complete "robot1" 42 [status_last 42; status_last 43].
Proof.
  intros H.
  specialize (H 0%nat 1%nat (PyInt 42)). cbn in H.
  assert (Return false = Return true) as Habs; [ | discriminate Habs ].
  apply H.
  - lia.
  - eexists. repeat split; reflexivity.
  - reflexivity.
Qed.

(** C5, as the source has it.  Each poll answers from its own snapshot
    alone: false when there is none, and otherwise whether that
    snapshot's [last_completed_request] equals the queried id.  So the
    answer is true at the first poll that reports the id and at every
    later poll that still reports it, and false again at a poll that
    reports another id or has no snapshot. *)
Theorem polls_level_triggered :
  forall robot_name cmd_id rs i,
    (i < List.length rs)%nat ->
    let r := nth i rs TransportFailed in
    let answer := nth i (polls robot_name cmd_id rs) (Return false) in
    (is_None (data None r) = true -> answer = Return false) /\
    (forall last, reports_last r last -> answer = Return (eq_int last cmd_id)).
Proof.
  intros robot_name cmd_id rs i Hi r answer. subst r answer. unfold polls.
  rewrite (nth_indep _ (Return false)
             (navigation_completed robot_name cmd_id TransportFailed))
    by now rewrite length_map.
  rewrite map_nth. split.
  - apply navigation_completed_no_snapshot.
  - intros last. apply navigation_completed_reports.
Qed.

Lemma polls_level_triggered_witness :
  (is_None (data None (nth 1 [status_last 42; status_last 43; TransportFailed] TransportFailed)) = true ->
   nth 1 (polls "robot1" 42 [status_last 42; status_last 43; TransportFailed]) (Return false)
   = Return false) /\
  (forall last,
      reports_last (nth 1 [status_last 42; status_last 43; TransportFailed] TransportFailed) last ->
      nth 1 (polls "robot1" 42 [status_last 42; status_last 43; TransportFailed]) (Return false)
      = Return (eq_int last 42)).
Proof.
  apply (polls_level_triggered "robot1" 42
           [status_last 42; status_last 43; TransportFailed] 1%nat).
  cbn. lia.
Defined.

Lemma get_field items key : get (PyDict items) key = Return (field items key).
Proof. unfold get, field. now destruct (dict_get items key). Qed.

(** C6.  On a snapshot with a data record, [navigation_remaining_duration]
    returns [None] when there is no arrival estimate (missing or null)
    and when the estimate's [cmd_id] is not the queried one, whatever
    duration it carries; when the ids are equal it returns the
    estimate's duration; and it returns a duration in no other case. *)
Theorem navigation_remaining_duration_matches :
  forall robot_name cmd_id body fields,
    subscript body "data" = Return (PyDict fields) ->
    let answer := navigation_remaining_duration robot_name cmd_id (Json body) in
    (field fields "destination_arrival" = PyNone -> answer = Return PyNone) /\
    (forall arrival,
        field fields "destination_arrival" = PyDict arrival ->
        (eq_int (field arrival "cmd_id") cmd_id = false -> answer = Return PyNone) /\
        (eq_int (field arrival "cmd_id") cmd_id = true ->
         answer = Return (field arrival "duration"))) /\
    (forall v,
        answer = Return v -> v <> PyNone ->
        exists arrival,
          field fields "destination_arrival" = PyDict arrival /\
          eq_int (field arrival "cmd_id") cmd_id = true /\
          field arrival "duration" = v).
Proof.
  intros robot_name cmd_id body fields Hd answer. subst answer.
  unfold navigation_remaining_duration. cbn [data].
  destruct body; try discriminate Hd. cbn [is_None].
  rewrite Hd. cbn [rbind]. rewrite get_field. cbn [rbind].
  destruct (field fields "destination_arrival") as [ | b | z | f | s | l | arrival ] eqn:Ha;
    cbn [is_None negb]; rewrite ?get_field; cbn [rbind get];
    (split; [ intros H | split; [ intros a H | intros v H Hv ] ]);
    try discriminate H.
  - reflexivity.
  - injection H as <-. congruence.
  - injection H as <-.
    destruct (eq_int (field arrival "cmd_id") cmd_id); cbn [negb];
      split; intros He; (discriminate He || reflexivity).
  - revert H.
    destruct (eq_int (field arrival "cmd_id") cmd_id) eqn:He; cbn [negb].
    + intros [= <-]. exists arrival. now repeat split.
    + intros [= <-]. congruence.
Qed.

Lemma navigation_remaining_duration_matches_witness :
  (field [("robot_name", PyStr "robot1");
          ("destination_arrival", PyDict [("cmd_id", PyInt 7); ("duration", PyFloat 12.5)])]
         "destination_arrival" = PyNone ->
   navigation_remaining_duration "robot1" 8 (status_arrival 7 (PyFloat 12.5)) = Return PyNone) /\
  (forall arrival,
      field [("robot_name", PyStr "robot1");
             ("destination_arrival", PyDict [("cmd_id", PyInt 7); ("duration", PyFloat 12.5)])]
            "destination_arrival" = PyDict arrival ->
      (eq_int (field arrival "cmd_id") 8 = false ->
       navigation_remaining_duration "robot1" 8 (status_arrival 7 (PyFloat 12.5)) = Return PyNone) /\
      (eq_int (field arrival "cmd_id") 8 = true ->
       navigation_remaining_duration "robot1" 8 (status_arrival 7 (PyFloat 12.5))
       = Return (field arrival "duration"))) /\
  (forall v,
      navigation_remaining_duration "robot1" 8 (status_arrival 7 (PyFloat 12.5)) = Return v ->
      v <> PyNone ->
      exists arrival,
        field [("robot_name", PyStr "robot1");
               ("destination_arrival", PyDict [("cmd_id", PyInt 7); ("duration", PyFloat 12.5)])]
              "destination_arrival" = PyDict arrival /\
        eq_int (field arrival "cmd_id") 8 = true /\
        field arrival "duration" = v).
Proof.
  apply (navigation_remaining_duration_matches "robot1" 8
           (status_body [("robot_name", PyStr "robot1");
                         ("destination_arrival",
                          PyDict [("cmd_id", PyInt 7); ("duration", PyFloat 12.5)])])).
  reflexivity.
Defined.

(** The scenario behind C6: an estimate for command 7 answers a query
    for 7 with its duration and a query for 8 with [None]. *)
Example remaining_duration_scenario :
  navigation_remaining_duration "robot1" 7 (status_arrival 7 (PyFloat 12.5))
  = Return (PyFloat 12.5) /\
  navigation_remaining_duration "robot1" 8 (status_arrival 7 (PyFloat 12.5))
  = Return PyNone /\
  navigation_remaining_duration "robot1" 7 TransportFailed = Return PyNone.
Proof. repeat split. Qed.

(** C7.  A call of [navigate] whose pose has its three entries never
    raises, and every refusal (the body could not be encoded, the
    transport failed, the server answered an error status, the answer
    could not be decoded, it carries no readable ['success'], or it
    says [False]) comes back as [False]. *)
Theorem navigate_never_raises :
  forall robot_name cmd_id pose map_name speed_limit r,
    (2 < List.length pose)%nat ->
    (exists accepted,
        navigate robot_name cmd_id pose map_name speed_limit r = Return accepted) /\
    (refused r ->
     navigate robot_name cmd_id pose map_name speed_limit r = Return (PyBool false)).
Proof.
  intros robot_name cmd_id pose map_name speed_limit r Hlen. unfold navigate.
  assert ((2 <? Z.of_nat (List.length pose)) = true) as -> by (apply Z.ltb_lt; lia).
  cbn [negb]. destruct r as [ | | | | body]; cbn [refused];
    try (split; [ eexists; reflexivity | reflexivity ]).
  destruct (subscript body "success") as [v | e].
  - split; [ now exists v | ]. intros [[= ->] | [e He]]; [ reflexivity | discriminate He ].
  - split; [ eexists; reflexivity | reflexivity ].
Qed.

Lemma navigate_never_raises_witness :
  (exists accepted,
      navigate "robot1" 42 [PyInt 1; PyInt 2; PyInt 0] "L1" (PyFloat 0)
               (Json (PyDict [("success", PyBool false)])) = Return accepted) /\
  (refused (Json (PyDict [("success", PyBool false)])) ->
   navigate "robot1" 42 [PyInt 1; PyInt 2; PyInt 0] "L1" (PyFloat 0)
            (Json (PyDict [("success", PyBool false)])) = Return (PyBool false)).
Proof.
  apply (navigate_never_raises "robot1" 42 [PyInt 1; PyInt 2; PyInt 0] "L1" (PyFloat 0)
           (Json (PyDict [("success", PyBool false)]))).
  cbn. lia.
Defined.

(** The scenario of the specification, evaluated. *)
Example navigate_rejected :
  navigate "robot1" 42 [PyInt 1; PyInt 2; PyInt 0] "L1" (PyFloat 0)
           (Json (PyDict [("success", PyBool false)])) = Return (PyBool false).
Proof. reflexivity. Qed.

(** The assertion on the pose stands outside the [try]. *)
Example navigate_short_pose :
  navigate "robot1" 42 [PyInt 1; PyInt 2] "L1" (PyFloat 0) TransportFailed
  = Raise AssertionError.
Proof. reflexivity. Qed.

(** C9, as the source has it.  On every status that is flagged
    successful and whose data record lacks [position], [position]
    raises [KeyError] to its caller instead of returning [None]: the
    field is read by subscript, outside any [try].  The beacons are not
    touched. *)
Theorem position_KeyError :
  forall robot_name body success fields self,
    subscript body "success" = Return success ->
    truthy success = true ->
    subscript body "data" = Return (PyDict fields) ->
    dict_get fields "position" = None ->
    position robot_name (Json body) self = (Raise KeyError, self, []).
Proof.
  intros robot_name body success fields self Hs Ht Hd Hp. unfold position. cbn [data].
  destruct body; try discriminate Hs. cbn [is_None negb].
  unfold bind, lift, ret. rewrite Hs, Ht. cbn [negb]. rewrite Hd.
  cbn. now rewrite Hp.
Qed.

(** A status that is flagged unsuccessful, or no status, gives [None]. *)
Lemma position_unavailable robot_name self :
  position robot_name TransportFailed self = (Return PyNone, self, []) /\
  position robot_name
    (Json (PyDict [("data", PyDict []); ("success", PyBool false); ("msg", PyStr "")])) self
  = (Return PyNone, self, []).
Proof. split; reflexivity. Qed.

(** The answer is true exactly when the snapshot reports the queried id. *)
Lemma navigation_completed_true robot_name cmd_id r :
  navigation_completed robot_name cmd_id r = Return true <->
  exists last, reports_last r last /\ eq_int last cmd_id = true.
Proof.
  split.
  - unfold navigation_completed, reports_last.
    change (data (Some robot_name) r) with (data None r).
    destruct (is_None (data None r)); cbn [negb]; [ discriminate | ].
    destruct (get (data None r) "data") as [d | e] eqn:Hd; cbn [rbind]; [ | discriminate ].
    destruct (is_None d) eqn:Hnone; cbn [negb]; [ discriminate | ].
    destruct (subscript d "last_completed_request") as [last | e] eqn:Hl;
      cbn [rbind]; [ | discriminate ].
    intros [= Heq]. exists last. split; [ | exact Heq ].
    exists d. repeat split; assumption.
  - intros (last & Hr & Heq).
    rewrite (navigation_completed_reports robot_name cmd_id r last Hr). now rewrite Heq.
Qed.

(** C10.  [process_completed] answers exactly as [navigation_completed]
    does, for every robot, command id and reply of the server; its
    answer is true exactly when the snapshot's last completed request
    equals the queried id. *)
Theorem process_completed_is_navigation_completed :
  forall robot_name cmd_id r,
    process_completed robot_name cmd_id r = navigation_completed robot_name cmd_id r /\
    (process_completed robot_name cmd_id r = Return true <->
     exists last, reports_last r last /\ eq_int last cmd_id = true).
Proof.
  intros robot_name cmd_id r. split.
  - reflexivity.
  - unfold process_completed. apply navigation_completed_true.
Qed.

(** ** The loop as a map over the beacon table *)

Lemma with_beacons_same self : with_beacons self (beacons self) = self.
Proof. destruct self. reflexivity. Qed.

Lemma store_occupant_app pre k bd rest r :
  ~ In k (map fst pre) ->
  store_occupant (pre ++ (k, bd) :: rest) k r
  = pre ++ (k, {| loc := loc bd; occupant := r |}) :: rest.
Proof.
  induction pre as [ | [k0 d0] pre IH]; cbn [app map fst store_occupant]; intros Hnot.
  - now rewrite String.eqb_refl.
  - destruct (String.eqb_spec k0 k) as [-> | Hne].
    + exfalso. apply Hnot. now left.
    + rewrite IH; [ reflexivity | ]. intros Hin. apply Hnot. now right.
Qed.

Lemma after_step_app far near robot_name k bd pre rest self :
  beacons self = pre ++ (k, bd) :: rest ->
  ~ In k (map fst pre) ->
  (far = true -> near = false) ->
  after_step far near robot_name k self
  = with_beacons self (pre ++ (k, entry_after far near robot_name bd) :: rest).
Proof.
  intros Hb Hnot Hex. unfold after_step, entry_after.
  destruct far; [ | destruct near ].
  - now rewrite Hb, store_occupant_app.
  - now rewrite Hb, store_occupant_app.
  - destruct bd as [l o]. cbn [loc occupant]. rewrite <- Hb. symmetry.
    apply with_beacons_same.
Qed.

Lemma for_each_map robot_name robot_pos items : forall pre self,
  beacons self = pre ++ items ->
  NoDup (map fst (pre ++ items)) ->
  (forall item, In item items ->
                step_result robot_pos (beacon_radius self) (snd item) = Return tt) ->
  for_each items (beacon_step robot_name robot_pos) self
  = (Return tt,
     with_beacons self
       (pre ++ map (rule robot_name robot_pos (beacon_radius self)) items),
     flat_map (rule_trace robot_name robot_pos (beacon_radius self)) items).
Proof.
  induction items as [ | [k bd] rest IH]; intros pre self Hb Hnd Hok.
  - cbn. rewrite <- Hb, with_beacons_same. reflexivity.
  - rewrite for_each_cons.
    assert (~ In k (map fst pre)) as Hnot.
    { rewrite map_app in Hnd. cbn [map fst] in Hnd.
      apply NoDup_remove_2 in Hnd. intros Hin. apply Hnd. apply in_or_app. now left. }
    rewrite beacon_step_eq.
    2:{ apply dict_get_key. rewrite Hb, map_app. apply in_or_app. right. now left. }
    pose proof (Hok (k, bd) (or_introl eq_refl)) as Hstep. cbn [snd] in Hstep.
    rewrite Hstep.
    set (rho := beacon_radius self).
    set (far := exits robot_name robot_pos rho bd).
    set (near := enters robot_pos rho bd).
    assert (far = true -> near = false) as Hex by apply exits_not_enters.
    rewrite (after_step_app far near robot_name k bd pre rest self Hb Hnot Hex).
    set (entry := entry_after far near robot_name bd).
    rewrite (IH (pre ++ [(k, entry)])
               (with_beacons self (pre ++ (k, entry) :: rest))).
    + unfold result_of, state_of, trace_of. cbn [fst snd with_beacons beacon_radius].
      fold rho. cbn [map flat_map]. unfold rule at 2, rule_trace at 2. cbn [fst snd].
      fold far near entry. rewrite <- app_assoc. reflexivity.
    + cbn [beacons with_beacons]. now rewrite <- app_assoc.
    + rewrite <- app_assoc. cbn [app]. rewrite map_app in *. cbn [map fst] in *. exact Hnd.
    + intros item Hin. cbn [beacon_radius with_beacons]. apply Hok. now right.
Qed.

Lemma update_beacon_map_eq self client robot_name robot_pos :
  mqtt_client self = Some client ->
  NoDup (map fst (beacons self)) ->
  dists_defined self robot_pos ->
  as_num (beacon_radius self) <> None ->
  update_beacon robot_name robot_pos self
  = (Return tt,
     with_beacons self
       (map (rule robot_name robot_pos (beacon_radius self)) (beacons self)),
     flat_map (rule_trace robot_name robot_pos (beacon_radius self)) (beacons self)).
Proof.
  intros Hc Hnd Hd Hn. unfold update_beacon. rewrite Hc.
  apply (for_each_map robot_name robot_pos (beacons self) [] self).
  - reflexivity.
  - exact Hnd.
  - intros item Hin. unfold step_result. destruct (Hd item Hin) as [d ->].
    destruct (as_num (beacon_radius self)); [ reflexivity | congruence ].
Qed.

(** X1.  A call of [update_beacon] that meets no exception is a map over
    the beacon table: when signalling is set up, the beacon ids are
    distinct, every configured beacon's distance to the reported
    position is computable and the radius is a number, the call
    returns, every entry becomes what the rule of the loop makes of it
    alone, in place, and the effects are those of the entries one after
    the other, in the order of the dict.  The distances are the ones
    [_dist] computes, on whatever [pow] the platform has. *)
Theorem update_beacon_is_map :
  forall self client robot_name robot_pos,
    mqtt_client self = Some client ->
    NoDup (map fst (beacons self)) ->
    dists_defined self robot_pos ->
    as_num (beacon_radius self) <> None ->
    update_beacon robot_name robot_pos self
    = (Return tt,
       with_beacons self
         (map (rule robot_name robot_pos (beacon_radius self)) (beacons self)),
       flat_map (rule_trace robot_name robot_pos (beacon_radius self)) (beacons self)).
Proof. intros. now apply update_beacon_map_eq with (client := client). Qed.

(** ** Repeating an update *)

Lemma entry_after_loc far near robot_name bd :
  loc (entry_after far near robot_name bd) = loc bd.
Proof. unfold entry_after. destruct far; [ | destruct near ]; reflexivity. Qed.

Lemma enters_true robot_pos rho bd :
  enters robot_pos rho bd = true ->
  exists d, _dist (loc bd) robot_pos = Return d /\ float_lt d rho = Return true.
Proof.
  unfold enters. destruct (_dist (loc bd) robot_pos) as [d | e]; [ | discriminate ].
  destruct (float_lt d rho) as [[ | ] | e] eqn:Hlt; try discriminate.
  intros _. exists d. now split.
Qed.

Lemma exits_true robot_name robot_pos rho bd :
  exits robot_name robot_pos rho bd = true ->
  occupant bd = Some robot_name /\
  exists d, _dist (loc bd) robot_pos = Return d /\ float_gt d rho = Return true.
Proof.
  unfold exits. intros H. apply andb_prop in H. destruct H as [Hocc H]. split.
  - unfold occupant_is in Hocc. destruct (occupant bd) as [r | ]; [ | discriminate ].
    apply String.eqb_eq in Hocc. now subst.
  - destruct (_dist (loc bd) robot_pos) as [d | e]; [ | discriminate ].
    destruct (float_gt d rho) as [[ | ] | e] eqn:Hgt; try discriminate.
    exists d. now split.
Qed.

Lemma enters_entry_after far near robot_name robot_pos rho bd :
  enters robot_pos rho (entry_after far near robot_name bd) = enters robot_pos rho bd.
Proof. unfold enters. now rewrite entry_after_loc. Qed.

(** After its own rule an entry no longer exits. *)
Lemma exits_after_rule robot_name robot_pos rho bd :
  exits robot_name robot_pos rho
        (entry_after (exits robot_name robot_pos rho bd) (enters robot_pos rho bd)
                     robot_name bd) = false.
Proof.
  destruct (exits robot_name robot_pos rho bd) eqn:Hfar.
  - reflexivity.
  - destruct (enters robot_pos rho bd) eqn:Hnear; cbn [entry_after].
    + destruct (enters_true _ _ _ Hnear) as (d & Hd & Hlt).
      unfold exits. cbn [loc occupant]. rewrite Hd, (float_lt_not_gt _ _ Hlt).
      apply andb_false_r.
    + exact Hfar.
Qed.

Lemma rule_idempotent robot_name robot_pos rho item :
  rule robot_name robot_pos rho (rule robot_name robot_pos rho item)
  = rule robot_name robot_pos rho item.
Proof.
  destruct item as [k bd]. unfold rule. cbn [fst snd]. f_equal.
  rewrite exits_after_rule, enters_entry_after.
  destruct (exits robot_name robot_pos rho bd) eqn:Hfar.
  - now rewrite (exits_not_enters _ _ _ _ Hfar).
  - destruct (enters robot_pos rho bd); reflexivity.
Qed.

Lemma rule_trace_after_rule robot_name robot_pos rho item :
  rule_trace robot_name robot_pos rho (rule robot_name robot_pos rho item)
  = refresh robot_name robot_pos rho item.
Proof.
  destruct item as [k bd]. unfold rule_trace, rule, refresh. cbn [fst snd].
  rewrite exits_after_rule, enters_entry_after. reflexivity.
Qed.

(** X2.  Repeating an update changes nothing more: when signalling is
    set up, the beacon ids are distinct, every configured beacon's
    distance to the reported position is computable and the radius is
    a number, a second call of [update_beacon] with the same robot and
    position returns, leaves the table as the first one made it,
    publishes ON again (and writes the occupant again) for every beacon
    within the radius, and publishes no OFF. *)
Theorem update_beacon_idempotent :
  forall self client robot_name robot_pos,
    mqtt_client self = Some client ->
    NoDup (map fst (beacons self)) ->
    dists_defined self robot_pos ->
    as_num (beacon_radius self) <> None ->
    let once := state_of (update_beacon robot_name robot_pos self) in
    update_beacon robot_name robot_pos once
    = (Return tt, once,
       flat_map (refresh robot_name robot_pos (beacon_radius self)) (beacons self)).
Proof.
  intros self client robot_name robot_pos Hc Hnd Hd Hn once. subst once.
  rewrite (update_beacon_map_eq self client robot_name robot_pos Hc Hnd Hd Hn).
  unfold state_of. cbn [fst snd].
  set (rho := beacon_radius self).
  set (once := with_beacons self (map (rule robot_name robot_pos rho) (beacons self))).
  assert (beacons once = map (rule robot_name robot_pos rho) (beacons self)) as Hb
      by reflexivity.
  assert (beacon_radius once = rho) as Hr by reflexivity.
  rewrite (update_beacon_map_eq once client robot_name robot_pos).
  - rewrite Hr, Hb.
    assert (map (rule robot_name robot_pos rho)
                (map (rule robot_name robot_pos rho) (beacons self))
            = map (rule robot_name robot_pos rho) (beacons self)) as ->.
    { rewrite map_map. apply map_ext. intros item. apply rule_idempotent. }
    assert (flat_map (rule_trace robot_name robot_pos rho)
                     (map (rule robot_name robot_pos rho) (beacons self))
            = flat_map (refresh robot_name robot_pos rho) (beacons self)) as ->.
    { rewrite flat_map_concat_map, map_map, <- flat_map_concat_map.
      apply flat_map_ext. intros item. apply rule_trace_after_rule. }
    reflexivity.
  - exact Hc.
  - rewrite Hb, map_map.
    erewrite map_ext; [ exact Hnd | ]. intros [k bd]. reflexivity.
  - intros item Hin. rewrite Hb in Hin.
    apply in_map_iff in Hin. destruct Hin as (item0 & <- & Hin0).
    unfold rule. cbn [snd]. rewrite entry_after_loc. now apply Hd.
  - rewrite Hr. exact Hn.
Qed.

(** ** What a call never does to a beacon *)

Lemma In_ON_step_trace far near robot_name k :
  In (ON k) (step_trace far near robot_name k) -> near = true.
Proof.
  unfold step_trace, transition, ON, OFF. cbn [fst snd].
  destruct far, near; cbn [app In]; intuition discriminate.
Qed.

Lemma In_OFF_step_trace far near robot_name k :
  In (OFF k) (step_trace far near robot_name k) -> far = true.
Proof.
  unfold step_trace, transition, ON, OFF. cbn [fst snd].
  destruct far, near; cbn [app In]; intuition discriminate.
Qed.

Lemma In_middle k e (reached : bool) t1 mid t2 :
  about k e = true ->
  Forall (fun e' => about k e' = false) t1 ->
  Forall (fun e' => about k e' = false) t2 ->
  In e (t1 ++ (if reached then mid else []) ++ t2) ->
  reached = true /\ In e mid.
Proof.
  intros He H1 H2 Hin.
  apply in_app_or in Hin. destruct Hin as [Hin | Hin].
  - exfalso. now apply (not_about_not_In k e t1).
  - apply in_app_or in Hin. destruct Hin as [Hin | Hin].
    + destruct reached; [ now split | destruct Hin ].
    + exfalso. now apply (not_about_not_In k e t2).
Qed.

(** X3.  In one call no beacon gets both signals, and none gets a
    signal twice: ON and OFF for a beacon together occur at most once
    in the trace of a call, however the call ends. *)
Theorem update_beacon_one_signal :
  forall self robot_name robot_pos beacon_id bd,
    wf self ->
    In (beacon_id, bd) (beacons self) ->
    let t := trace_of (update_beacon robot_name robot_pos self) in
    (emitted (ON beacon_id) t + emitted (OFF beacon_id) t <= 1)%nat.
Proof.
  intros self robot_name robot_pos k bd Hwf Hin t. subst t.
  destruct (update_beacon_target robot_name robot_pos k bd self Hwf Hin)
    as (reached & t1 & t2 & Ht & H1 & H2 & _ & _).
  set (far := exits robot_name robot_pos (beacon_radius self) bd) in *.
  set (near := enters robot_pos (beacon_radius self) bd) in *.
  assert (far = true -> near = false) as Hex by apply exits_not_enters.
  rewrite Ht, !emitted_app.
  rewrite (not_about_emitted k _ t1 (about_ON k) H1),
    (not_about_emitted k _ t2 (about_ON k) H2),
    (not_about_emitted k _ t1 (about_OFF k) H1),
    (not_about_emitted k _ t2 (about_OFF k) H2).
  destruct reached; [ | cbn; lia ].
  rewrite emitted_step_trace_ON, emitted_step_trace_OFF.
  destruct far; [ rewrite (Hex eq_refl) | destruct near ]; cbn; lia.
Qed.

(** X4.  The signals and the table stay in step: when a call has
    published ON for a beacon, the reporting robot is its occupant
    afterwards, and when it has published OFF the beacon has no
    occupant afterwards, even if the call ended in an exception at a
    later beacon. *)
Theorem update_beacon_signal_matches_table :
  forall self robot_name robot_pos beacon_id bd,
    wf self ->
    In (beacon_id, bd) (beacons self) ->
    let o := update_beacon robot_name robot_pos self in
    (In (ON beacon_id) (trace_of o) ->
     dict_get (beacons (state_of o)) beacon_id
     = Some {| loc := loc bd; occupant := Some robot_name |}) /\
    (In (OFF beacon_id) (trace_of o) ->
     dict_get (beacons (state_of o)) beacon_id
     = Some {| loc := loc bd; occupant := None |}).
Proof.
  intros self robot_name robot_pos k bd Hwf Hin o. subst o.
  destruct (update_beacon_target robot_name robot_pos k bd self Hwf Hin)
    as (reached & t1 & t2 & Ht & H1 & H2 & Hget & _).
  set (far := exits robot_name robot_pos (beacon_radius self) bd) in *.
  set (near := enters robot_pos (beacon_radius self) bd) in *.
  assert (far = true -> near = false) as Hex by apply exits_not_enters.
  rewrite Ht, Hget. split; intros Hsig.
  - apply (In_middle k) in Hsig; auto using about_ON.
    destruct Hsig as [-> Hsig]. apply In_ON_step_trace in Hsig.
    destruct far; [ rewrite (Hex eq_refl) in Hsig; discriminate | ].
    now rewrite Hsig.
  - apply (In_middle k) in Hsig; auto using about_OFF.
    destruct Hsig as [-> Hsig]. apply In_OFF_step_trace in Hsig.
    now rewrite Hsig.
Qed.

(** X5.  A robot's update never clears another robot's registration and
    never moves a beacon: afterwards the beacon has its location, and
    its occupant is the one before, or the reporting robot, or nobody
    when the reporting robot itself was the occupant. *)
Theorem update_beacon_only_own_registration :
  forall self robot_name robot_pos beacon_id bd,
    wf self ->
    In (beacon_id, bd) (beacons self) ->
    exists bd',
      dict_get (beacons (state_of (update_beacon robot_name robot_pos self))) beacon_id
      = Some bd' /\
      loc bd' = loc bd /\
      (occupant bd' = occupant bd \/
       occupant bd' = Some robot_name \/
       (occupant bd' = None /\ occupant bd = Some robot_name)).
Proof.
  intros self robot_name robot_pos k bd Hwf Hin.
  destruct (update_beacon_target robot_name robot_pos k bd self Hwf Hin)
    as (reached & t1 & t2 & _ & _ & _ & Hget & _).
  eexists. split; [ exact Hget | ].
  destruct reached; [ | now split; [ | left ] ].
  split; [ apply entry_after_loc | ].
  unfold entry_after.
  destruct (exits robot_name robot_pos (beacon_radius self) bd) eqn:Hfar.
  - right. right. split; [ reflexivity | ]. now apply exits_true in Hfar.
  - destruct (enters robot_pos (beacon_radius self) bd); [ right | ]; now left.
Qed.

(** ** The distance *)

Lemma binary_round_aux_not_negative m e l :
  not_negative (binary_round_aux prec emax false m e l) = true.
Proof.
  unfold binary_round_aux.
  destruct (shr_fexp prec emax m e l) as [mrs' e'].
  destruct (shr_fexp prec emax _ e' loc_Exact) as [mrs'' e''].
  destruct (shr_m mrs''); [ reflexivity | | reflexivity ].
  destruct (Z.leb e'' (emax - prec)); reflexivity.
Qed.

Lemma SFsqrt_not_negative x : not_negative (SFsqrt prec emax x) = true.
Proof.
  destruct x as [ [ | ] | [ | ] | | [ | ] m e ]; cbn [SFsqrt not_negative negb];
    try reflexivity.
  destruct (SFsqrt_core_binary prec emax (Z.pos m) e) as [[mz ez] lz].
  apply binary_round_aux_not_negative.
Qed.

Lemma math_sqrt_not_negative v d :
  math_sqrt v = Return d -> not_negative (Prim2SF d) = true.
Proof.
  unfold math_sqrt. destruct (as_num v) as [n | ]; [ | discriminate ].
  destruct (to_float n) as [f | e]; cbn [rbind]; [ | discriminate ].
  destruct (PrimFloat.ltb f 0); [ discriminate | ].
  intros [= <-]. rewrite sqrt_spec. apply SFsqrt_not_negative.
Qed.

Lemma _dist_not_negative A B d :
  _dist A B = Return d -> not_negative (Prim2SF d) = true.
Proof.
  unfold _dist.
  destruct (negb (1 <? Z.of_nat (List.length A))); [ discriminate | ].
  destruct (negb (1 <? Z.of_nat (List.length B))); [ discriminate | ].
  destruct (sub (nth 0 A PyNone) (nth 0 B PyNone)) as [dx | e]; cbn [rbind]; [ | discriminate ].
  destruct (pow2 dx) as [sx | e]; cbn [rbind]; [ | discriminate ].
  destruct (sub (nth 1 A PyNone) (nth 1 B PyNone)) as [dy | e]; cbn [rbind]; [ | discriminate ].
  destruct (pow2 dy) as [sy | e]; cbn [rbind]; [ | discriminate ].
  destruct (add sx sy) as [s | e]; cbn [rbind]; [ | discriminate ].
  apply math_sqrt_not_negative.
Qed.

Lemma float_compare_NFloat f g :
  float_compare f (NFloat g) = SFcompare (Prim2SF f) (Prim2SF g).
Proof.
  cbn [float_compare]. rewrite compare_spec.
  destruct (SFcompare (Prim2SF f) (Prim2SF g)) as [[ | | ] | ]; reflexivity.
Qed.

Lemma Prim2SF_zero : Prim2SF 0%float = S754_zero false.
Proof. reflexivity. Qed.

(** What is not negative is not below anything that zero is not below. *)
Lemma float_compare_not_below d n :
  not_negative (Prim2SF d) = true ->
  is_cmp Lt (float_compare 0%float n) = false ->
  is_cmp Lt (float_compare d n) = false.
Proof.
  intros Hd. destruct n as [z | g].
  - cbn [float_compare]. rewrite Prim2SF_zero. cbn [SFcompare_Z].
    destruct (Prim2SF d) as [s | s | | s m e]; cbn [SFcompare_Z not_negative] in *.
    + trivial.
    + destruct s; [ discriminate | reflexivity ].
    + reflexivity.
    + destruct s; [ discriminate | ]. cbn [cond_Zopp].
      intros Hz.
      assert (z <= 0) as Hle.
      { destruct (Z.compare_spec 0 z); cbn in Hz; try discriminate; lia. }
      destruct (0 <=? e) eqn:He.
      * apply Z.leb_le in He.
        assert (0 < 2 ^ e) by (apply Z.pow_pos_nonneg; lia).
        destruct (Z.compare_spec (Z.pos m * 2 ^ e) z); try reflexivity. nia.
      * apply Z.leb_gt in He.
        assert (0 < 2 ^ (- e)) by (apply Z.pow_pos_nonneg; lia).
        destruct (Z.compare_spec (Z.pos m) (z * 2 ^ (- e))); try reflexivity. nia.
  - rewrite !float_compare_NFloat, Prim2SF_zero.
    destruct (Prim2SF d) as [s | s | | s m e], (Prim2SF g) as [s' | s' | | s' m' e'];
      cbn in *; try reflexivity; try discriminate;
      destruct s; try discriminate; destruct s'; cbn; congruence.
Qed.

(** X6.  A distance is never below zero: whatever [_dist] returns is not
    less than the integer or the float zero (it can be a NaN, which is
    not less than anything). *)
Theorem _dist_never_negative :
  forall A B d,
    _dist A B = Return d ->
    float_lt d (PyInt 0) = Return false /\ float_lt d (PyFloat 0) = Return false.
Proof.
  intros A B d Hd. apply _dist_not_negative in Hd.
  unfold float_lt. cbn [as_num].
  rewrite !(float_compare_not_below d _ Hd); [ now split | reflexivity | reflexivity ].
Qed.

(** X7.  A beacon system whose radius is a number not above zero never
    switches a beacon on: no call publishes ON for a beacon or makes
    the reporting robot its occupant. *)
Theorem nonpositive_radius_never_on :
  forall self robot_name robot_pos beacon_id bd,
    wf self ->
    In (beacon_id, bd) (beacons self) ->
    float_lt 0%float (beacon_radius self) = Return false ->
    let o := update_beacon robot_name robot_pos self in
    ~ In (ON beacon_id) (trace_of o) /\
    ~ In (SetOccupant beacon_id (Some robot_name)) (trace_of o).
Proof.
  intros self robot_name robot_pos k bd Hwf Hin Hrho o. subst o.
  destruct (update_beacon_target robot_name robot_pos k bd self Hwf Hin)
    as (reached & t1 & t2 & Ht & H1 & H2 & _ & _).
  assert (enters robot_pos (beacon_radius self) bd = false) as Hnear.
  { unfold enters. destruct (_dist (loc bd) robot_pos) as [d | e] eqn:Hd; [ | reflexivity ].
    apply _dist_not_negative in Hd. unfold float_lt in *.
    destruct (as_num (beacon_radius self)) as [n | ]; [ | discriminate ].
    injection Hrho as Hrho. now rewrite (float_compare_not_below d n Hd Hrho). }
  rewrite Hnear in Ht. rewrite Ht. split; intros Hsig.
  - apply (In_middle k) in Hsig; auto using about_ON.
    destruct Hsig as [_ Hsig]. apply In_ON_step_trace in Hsig. discriminate.
  - apply (In_middle k) in Hsig; auto; [ | apply String.eqb_refl ].
    destruct Hsig as [_ Hsig]. unfold step_trace, transition in Hsig. cbn [fst snd] in Hsig.
    destruct (exits _ _ _ _); cbn in Hsig; intuition discriminate.
Qed.

Lemma is_nan_Prim2SF d : is_nan d = true -> Prim2SF d = S754_nan.
Proof. intros H. unfold Prim2SF. now rewrite H. Qed.

Lemma float_compare_nan d n : is_nan d = true -> float_compare d n = None.
Proof.
  intros H. apply is_nan_Prim2SF in H. destruct n as [z | g].
  - cbn [float_compare]. now rewrite H.
  - rewrite float_compare_NFloat, H. reflexivity.
Qed.

(** X8.  A distance that is a NaN (a position with a NaN coordinate, or
    infinite coordinates on both sides) freezes the beacon: the call
    publishes neither ON nor OFF for it and leaves its occupant as it
    was, so a beacon its robot had switched on stays on. *)
Theorem update_beacon_nan_freezes :
  forall self robot_name robot_pos beacon_id bd d,
    wf self ->
    In (beacon_id, bd) (beacons self) ->
    _dist (loc bd) robot_pos = Return d ->
    is_nan d = true ->
    let o := update_beacon robot_name robot_pos self in
    ~ In (ON beacon_id) (trace_of o) /\
    ~ In (OFF beacon_id) (trace_of o) /\
    dict_get (beacons (state_of o)) beacon_id = Some bd.
Proof.
  intros self robot_name robot_pos k bd d Hwf Hin Hd Hnan o. subst o.
  destruct (update_beacon_target robot_name robot_pos k bd self Hwf Hin)
    as (reached & t1 & t2 & Ht & H1 & H2 & Hget & _).
  assert (exits robot_name robot_pos (beacon_radius self) bd = false) as Hfar.
  { unfold exits, float_gt. rewrite Hd.
    destruct (as_num (beacon_radius self)); [ | apply andb_false_r ].
    rewrite (float_compare_nan d _ Hnan). apply andb_false_r. }
  assert (enters robot_pos (beacon_radius self) bd = false) as Hnear.
  { unfold enters, float_lt. rewrite Hd.
    destruct (as_num (beacon_radius self)); [ | reflexivity ].
    now rewrite (float_compare_nan d _ Hnan). }
  rewrite Hfar, Hnear in *.
  assert (Forall (fun e => about k e = false)
                 (trace_of (update_beacon robot_name robot_pos self))) as Hall.
  { rewrite Ht. apply Forall_app. split; [ assumption | ].
    apply Forall_app. split; [ destruct reached; constructor | assumption ]. }
  repeat split.
  - apply (not_about_not_In k); [ apply about_ON | exact Hall ].
  - apply (not_about_not_In k); [ apply about_OFF | exact Hall ].
  - rewrite Hget. now destruct reached.
Qed.

Lemma to_float_no_assertion n : to_float n <> Raise AssertionError.
Proof.
  destruct n as [z | f]; cbn [to_float]; [ | discriminate ].
  unfold float_of_Z. destruct (is_infinity _); discriminate.
Qed.

Lemma arith_no_assertion opZ opF a b : arith opZ opF a b <> Raise AssertionError.
Proof.
  unfold arith.
  destruct (as_num a) as [[x | x] | ], (as_num b) as [[y | y] | ]; try discriminate;
    cbn [to_float rbind];
    repeat match goal with
           | |- context [float_of_Z ?z] =>
               let H := fresh in
               pose proof (to_float_no_assertion (NInt z)) as H; cbn [to_float] in H;
               destruct (float_of_Z z) as [? | [ | | | | | ]]; cbn [rbind];
               try congruence; clear H
           end; discriminate.
Qed.

Lemma pow2_no_assertion v : pow2 v <> Raise AssertionError.
Proof.
  unfold pow2. destruct (as_num v) as [[z | f] | ]; try discriminate.
  unfold float_pow2.
  destruct (is_nan f); [ discriminate | ].
  destruct (is_infinity f); [ discriminate | ].
  destruct (float_is_zero f); [ discriminate | ].
  destruct (PrimFloat.eqb (abs f) 1); [ discriminate | ].
  destruct (libm_pow (abs f) 2) as [ix e].
  destruct (adjust_erange1 ix e); discriminate.
Qed.

Lemma math_sqrt_no_assertion v : math_sqrt v <> Raise AssertionError.
Proof.
  unfold math_sqrt. destruct (as_num v) as [n | ]; [ | discriminate ].
  pose proof (to_float_no_assertion n) as H.
  destruct (to_float n) as [f | e]; cbn [rbind]; [ | congruence ].
  destruct (PrimFloat.ltb f 0); discriminate.
Qed.

(** X9.  [_dist] fails its assertion exactly on a point with fewer than
    two coordinates: with two coordinates on each side, whatever they
    are, the outcome is a distance or another exception. *)
Theorem _dist_asserts_short_points :
  forall A B,
    _dist A B = Raise AssertionError <->
    (List.length A < 2 \/ List.length B < 2)%nat.
Proof.
  intros A B. unfold _dist.
  destruct (1 <? Z.of_nat (List.length A)) eqn:HA; cbn [negb].
  - destruct (1 <? Z.of_nat (List.length B)) eqn:HB; cbn [negb].
    + apply Z.ltb_lt in HA, HB. split; [ | lia ]. intros H. exfalso. revert H.
      pose proof (arith_no_assertion Z.sub PrimFloat.sub (nth 0 A PyNone) (nth 0 B PyNone)).
      fold sub in *.
      destruct (sub (nth 0 A PyNone) (nth 0 B PyNone)) as [dx | e]; cbn [rbind];
        [ | congruence ].
      pose proof (pow2_no_assertion dx).
      destruct (pow2 dx) as [sx | e]; cbn [rbind]; [ | congruence ].
      pose proof (arith_no_assertion Z.sub PrimFloat.sub (nth 1 A PyNone) (nth 1 B PyNone)).
      fold sub in *.
      destruct (sub (nth 1 A PyNone) (nth 1 B PyNone)) as [dy | e]; cbn [rbind];
        [ | congruence ].
      pose proof (pow2_no_assertion dy).
      destruct (pow2 dy) as [sy | e]; cbn [rbind]; [ | congruence ].
      pose proof (arith_no_assertion Z.add PrimFloat.add sx sy). fold add in *.
      destruct (add sx sy) as [s | e]; cbn [rbind]; [ | congruence ].
      apply math_sqrt_no_assertion.
    + apply Z.ltb_ge in HB. split; [ lia | reflexivity ].
  - apply Z.ltb_ge in HA. split; [ lia | reflexivity ].
Qed.

(** ** The constructor *)

Lemma dict_set_fresh {A : Type} (items : list (string * A)) k v :
  ~ In k (map fst items) -> dict_set items k v = items ++ [(k, v)].
Proof.
  induction items as [ | [k0 v0] rest IH]; cbn [dict_set map fst app]; intros Hnot.
  - reflexivity.
  - destruct (String.eqb_spec k0 k) as [-> | Hne].
    + exfalso. apply Hnot. now left.
    + rewrite IH; [ reflexivity | ]. intros Hin. apply Hnot. now right.
Qed.

Lemma init_fold items : forall acc,
  NoDup (map fst acc ++ map fst items) ->
  fold_left (fun (bs : list (string * beacon_data)) (item : string * list value) =>
               dict_set bs (fst item) {| loc := snd item; occupant := None |})
            items acc
  = acc ++ map (fun item => (fst item, {| loc := snd item; occupant := None |})) items.
Proof.
  induction items as [ | [k l] rest IH]; intros acc Hnd; cbn [fold_left map fst snd].
  - now rewrite app_nil_r.
  - cbn [map fst] in Hnd.
    rewrite dict_set_fresh.
    + rewrite IH.
      * now rewrite <- app_assoc.
      * rewrite map_app. cbn [map fst]. now rewrite <- app_assoc.
    + apply NoDup_remove_2 in Hnd. intros Hin. apply Hnd. apply in_or_app. now left.
Qed.

(** X10.  [__init__] registers every configured beacon under its id,
    with its configured location and no occupant, in the order of the
    configuration, and takes the radius from it; for a configuration
    whose beacon ids are distinct, as the keys of a dict are. *)
Theorem init_registers_config :
  forall prefix_ user_ password_ c,
    NoDup (map fst (cfg_beacons c)) ->
    let self := init prefix_ user_ password_ (Some c) in
    beacons self
    = map (fun item => (fst item, {| loc := snd item; occupant := None |}))
          (cfg_beacons c) /\
    beacon_radius self = cfg_beacon_alert_radius c /\
    (forall beacon_id l,
        dict_get (cfg_beacons c) beacon_id = Some l ->
        dict_get (beacons self) beacon_id = Some {| loc := l; occupant := None |}).
Proof.
  intros prefix_ user_ password_ c Hnd self. subst self. cbn [init beacons beacon_radius].
  rewrite (init_fold (cfg_beacons c) []) by exact Hnd. cbn [app].
  split; [ reflexivity | split; [ reflexivity | ] ].
  intros k l. clear Hnd.
  induction (cfg_beacons c) as [ | [k0 l0] rest IH]; cbn [dict_get map fst snd];
    [ discriminate | ].
  destruct (String.eqb k0 k); [ now intros [= ->] | exact IH ].
Qed.

Lemma init_registers_config_witness :
  beacons (init "http://fleet.local" "fleet" "secret" (Some demo_config))
  = map (fun item => (fst item, {| loc := snd item; occupant := None |}))
        (cfg_beacons demo_config) /\
  beacon_radius (init "http://fleet.local" "fleet" "secret" (Some demo_config))
  = cfg_beacon_alert_radius demo_config /\
  (forall beacon_id l,
      dict_get (cfg_beacons demo_config) beacon_id = Some l ->
      dict_get (beacons (init "http://fleet.local" "fleet" "secret" (Some demo_config)))
               beacon_id
      = Some {| loc := l; occupant := None |}).
Proof.
  apply (init_registers_config "http://fleet.local" "fleet" "secret" demo_config).
  cbn. repeat constructor; cbn; intuition discriminate.
Defined.

(** ** The status queries together *)

(** X11.  When the status fetch fails (or the body is JSON null), which
    is when [check_connection] answers false, every status query
    returns its fallback without raising: [False] for the completion
    and replan queries, [None] for the duration, the battery and the
    position, and [position] leaves the beacons alone. *)
Theorem failed_fetch_gives_fallbacks :
  forall robot_name cmd_id r self,
    check_connection r = false ->
    navigation_completed robot_name cmd_id r = Return false /\
    process_completed robot_name cmd_id r = Return false /\
    navigation_remaining_duration robot_name cmd_id r = Return PyNone /\
    battery_soc robot_name r = Return PyNone /\
    requires_replan robot_name r = Return (PyBool false) /\
    position robot_name r self = (Return PyNone, self, []).
Proof.
  intros robot_name cmd_id r self Hc.
  assert (is_None (data None r) = true) as Hnone.
  { unfold check_connection in Hc. destruct (is_None (data None r)); congruence. }
  unfold process_completed, navigation_completed, navigation_remaining_duration,
    battery_soc, requires_replan, position.
  change (data (Some robot_name) r) with (data None r). rewrite Hnone.
  repeat split.
Qed.

(** X12.  Only [position] looks at the success flag.  The completion,
    duration, battery and replan queries read nothing but the ['data']
    entry of the body: two bodies with the same ['data'] get the same
    answers, whatever their flags; [position] returns [None], and
    leaves the beacons alone, on a body whose flag is false, even if
    it carries a position. *)
Theorem only_position_reads_success :
  forall robot_name cmd_id items1 items2,
    dict_get items1 "data" = dict_get items2 "data" ->
    (navigation_completed robot_name cmd_id (Json (PyDict items1))
     = navigation_completed robot_name cmd_id (Json (PyDict items2)) /\
     navigation_remaining_duration robot_name cmd_id (Json (PyDict items1))
     = navigation_remaining_duration robot_name cmd_id (Json (PyDict items2)) /\
     battery_soc robot_name (Json (PyDict items1))
     = battery_soc robot_name (Json (PyDict items2)) /\
     requires_replan robot_name (Json (PyDict items1))
     = requires_replan robot_name (Json (PyDict items2))) /\
    (forall success self,
        dict_get items1 "success" = Some success ->
        truthy success = false ->
        position robot_name (Json (PyDict items1)) self = (Return PyNone, self, [])).
Proof.
  intros robot_name cmd_id items1 items2 Hd. split.
  - unfold navigation_completed, navigation_remaining_duration, battery_soc,
      requires_replan.
    cbn [data is_None negb get subscript]. rewrite Hd. repeat split.
  - intros success self Hs Ht. unfold position. cbn [data is_None negb subscript].
    rewrite Hs. unfold bind, lift, ret. now rewrite Ht.
Qed.

(** X13.  A body without a ['data'] entry is treated unevenly:
    [navigation_completed] (and with it [process_completed]) answers
    [False], while the duration, battery and replan queries raise
    [KeyError] to the caller. *)
Theorem missing_data_entry :
  forall robot_name cmd_id items,
    dict_get items "data" = None ->
    navigation_completed robot_name cmd_id (Json (PyDict items)) = Return false /\
    process_completed robot_name cmd_id (Json (PyDict items)) = Return false /\
    navigation_remaining_duration robot_name cmd_id (Json (PyDict items)) = Raise KeyError /\
    battery_soc robot_name (Json (PyDict items)) = Raise KeyError /\
    requires_replan robot_name (Json (PyDict items)) = Raise KeyError.
Proof.
  intros robot_name cmd_id items Hd.
  unfold process_completed, navigation_completed, navigation_remaining_duration,
    battery_soc, requires_replan.
  cbn [data is_None negb get subscript]. rewrite Hd. repeat split.
Qed.

Lemma missing_data_entry_witness :
  navigation_completed "robot1" 42 (Json (PyDict [("success", PyBool false)]))
  = Return false /\
  process_completed "robot1" 42 (Json (PyDict [("success", PyBool false)]))
  = Return false /\
  navigation_remaining_duration "robot1" 42 (Json (PyDict [("success", PyBool false)]))
  = Raise KeyError /\
  battery_soc "robot1" (Json (PyDict [("success", PyBool false)])) = Raise KeyError /\
  requires_replan "robot1" (Json (PyDict [("success", PyBool false)])) = Raise KeyError.
Proof.
  apply (missing_data_entry "robot1" 42 [("success", PyBool false)]).
  reflexivity.
Defined.

(** X14.  [battery_soc] returns [None] exactly when there is no
    snapshot: on a decoded body it returns a float or raises (a data
    record without ['battery'] is a [KeyError]), never [None]. *)
Theorem battery_soc_None_iff :
  forall robot_name r,
    battery_soc robot_name r = Return PyNone <-> check_connection r = false.
Proof.
  intros robot_name r. unfold battery_soc, check_connection.
  change (data (Some robot_name) r) with (data None r).
  destruct (is_None (data None r)); cbn [negb]; [ now split | ].
  split; [ | discriminate ].
  destruct (subscript (data None r) "data") as [d | e]; cbn [rbind]; [ | discriminate ].
  destruct (subscript d "battery") as [b | e]; cbn [rbind]; [ | discriminate ].
  destruct (div_100 b) as [soc | e]; cbn [rbind]; discriminate.
Qed.

Lemma soc_in_range_percent :
  forallb soc_in_range (map Z.of_nat (seq 0 101)) = true.
Proof. vm_compute. reflexivity. Qed.

(** X15.  A battery level that is a whole percentage between 0 and 100
    comes back as a float between 0.0 and 1.0. *)
Theorem battery_soc_percent :
  forall robot_name body fields z,
    subscript body "data" = Return (PyDict fields) ->
    dict_get fields "battery" = Some (PyInt z) ->
    0 <= z <= 100 ->
    exists soc,
      battery_soc robot_name (Json body) = Return (PyFloat soc) /\
      PrimFloat.leb 0 soc = true /\ PrimFloat.leb soc 1 = true.
Proof.
  intros robot_name body fields z Hd Hb Hz.
  assert (soc_in_range z = true) as Hr.
  { pose proof soc_in_range_percent as Hall. rewrite forallb_forall in Hall.
    apply Hall. apply in_map_iff. exists (Z.to_nat z). split; [ lia | ].
    apply in_seq. lia. }
  unfold soc_in_range in Hr.
  destruct (div_100 (PyInt z)) as [soc | e] eqn:Hdiv; [ | discriminate ].
  apply andb_prop in Hr. exists soc. split; [ | exact Hr ].
  unfold battery_soc. cbn [data].
  destruct body; try discriminate Hd. cbn [is_None negb].
  rewrite Hd. cbn [rbind subscript]. rewrite Hb. cbn [rbind]. rewrite Hdiv. reflexivity.
Qed.

Lemma battery_soc_percent_witness :
  exists soc,
    battery_soc "robot1" (Json (status_body [("battery", PyInt 87)])) = Return (PyFloat soc) /\
    PrimFloat.leb 0 soc = true /\ PrimFloat.leb soc 1 = true.
Proof.
  apply (battery_soc_percent "robot1" (status_body [("battery", PyInt 87)])
           [("battery", PyInt 87)] 87).
  - reflexivity.
  - reflexivity.
  - lia.
Defined.

(** ** The commands *)

(** X16.  [start_process], [stop] and [toggle_action] never raise,
    whatever their arguments and whatever the exchange comes to: all
    three return the same value; it is the value under ['success'] of
    the answer whenever the answer has one, and [False] on every
    refusal; it is also what [navigate] returns for a pose that passes
    its assertion. *)
Theorem commands_never_raise :
  forall robot_name cmd_id process map_name toggle_ r,
  exists accepted,
    start_process robot_name cmd_id process map_name r = Return accepted /\
    stop robot_name cmd_id r = Return accepted /\
    toggle_action robot_name toggle_ r = Return accepted /\
    (forall body v,
        r = Json body -> subscript body "success" = Return v -> accepted = v) /\
    (refused r -> accepted = PyBool false) /\
    (forall pose speed_limit,
        (2 < List.length pose)%nat ->
        navigate robot_name cmd_id pose map_name speed_limit r = Return accepted).
Proof.
  intros robot_name cmd_id process map_name toggle_ r.
  unfold start_process, stop, toggle_action.
  assert (forall pose speed_limit,
             (2 < List.length pose)%nat ->
             navigate robot_name cmd_id pose map_name speed_limit r = success_or_False r)
    as Hnav.
  { intros pose speed_limit Hlen. unfold navigate, success_or_False.
    assert ((2 <? Z.of_nat (List.length pose)) = true) as -> by (apply Z.ltb_lt; lia).
    reflexivity. }
  destruct (success_or_False r) as [accepted | e] eqn:Hs.
  - exists accepted. repeat split; try assumption.
    + intros body v -> Hv. revert Hs. unfold success_or_False.
      rewrite Hv. now intros [= <-].
    + revert Hs. unfold success_or_False, refused.
      destruct r as [ | | | | body]; try (intros [= <-] _; reflexivity).
      destruct (subscript body "success") as [v | e].
      * intros [= <-] [[= ->] | [e He]]; [ reflexivity | discriminate He ].
      * intros [= <-] _. reflexivity.
  - exfalso. revert Hs. unfold success_or_False.
    destruct r as [ | | | | body]; try discriminate.
    destruct (subscript body "success"); discriminate.
Qed.

(** X17.  [retrieve_process_waypoints] never raises, and what it returns
    is [None] unless the answer is flagged successful and carries
    [data.path]: then it is that path. *)
Theorem retrieve_process_waypoints_path :
  forall process r,
  exists v,
    retrieve_process_waypoints process r = Return v /\
    (forall body success d path,
        r = Json body ->
        subscript body "success" = Return success ->
        truthy success = true ->
        subscript body "data" = Return d ->
        subscript d "path" = Return path ->
        v = path) /\
    (v <> PyNone ->
     exists body success d,
       r = Json body /\
       subscript body "success" = Return success /\
       truthy success = true /\
       subscript body "data" = Return d /\
       subscript d "path" = Return v).
Proof.
  intros process r. unfold retrieve_process_waypoints.
  destruct r as [ | | | | body];
    try (exists PyNone; split; [ reflexivity | split; [ discriminate | congruence ] ]).
  destruct (subscript body "success") as [success | e] eqn:Hs; cbn [rbind].
  2: { exists PyNone. split; [ reflexivity | split; [ | congruence ] ].
       intros body' success' d path [= <-]. congruence. }
  destruct (truthy success) eqn:Ht; cbn [negb].
  2: { exists PyNone. split; [ reflexivity | split; [ | congruence ] ].
       intros body' success' d path [= <-]. congruence. }
  destruct (subscript body "data") as [d | e] eqn:Hd; cbn [rbind].
  2: { exists PyNone. split; [ reflexivity | split; [ | congruence ] ].
       intros body' success' d path [= <-]. congruence. }
  destruct (subscript d "path") as [v | e] eqn:Hp.
  2: { exists PyNone. split; [ reflexivity | split; [ | congruence ] ].
       intros body' success' d' path [= <-]. congruence. }
  exists v. split; [ reflexivity | split ].
  - intros body' success' d' path [= <-]. congruence.
  - intros _. exists body, success, d. now repeat split.
Qed.

(** ** The position and the beacons *)

Lemma position_complete robot_name body x y angle self :
  complete_status body x y angle ->
  position robot_name (Json body) self
  = (match result_of (update_beacon robot_name [x; y] self) with
     | Return _ => Return (PyList [x; y; angle])
     | Raise e => Raise e
     end,
     state_of (update_beacon robot_name [x; y] self),
     trace_of (update_beacon robot_name [x; y] self)).
Proof.
  intros (success & d & p & Hs & Ht & Hd & Hp & Hx & Hy & Ha).
  unfold position. cbn [data].
  destruct body; try discriminate Hs. cbn [is_None negb].
  unfold bind, lift, ret, result_of, state_of, trace_of.
  rewrite Hs, Ht. cbn [negb]. rewrite Hd, Hp, Hx, Hy, Ha.
  destruct (update_beacon robot_name [x; y] self) as [[[u | e] self1] t1]; cbn [fst snd].
  - now rewrite app_nil_r.
  - reflexivity.
Qed.

(** X18.  On a complete status [position] does to the beacons exactly
    what [update_beacon] does with the reported x and y: the same state
    afterwards, the same effects, and the same exception if there is
    one; when there is none it returns [x, y, yaw] as they came, and
    without an MQTT client it does so whatever x and y are. *)
Theorem position_runs_update_beacon :
  forall robot_name body x y angle self,
    complete_status body x y angle ->
    let o := update_beacon robot_name [x; y] self in
    state_of (position robot_name (Json body) self) = state_of o /\
    trace_of (position robot_name (Json body) self) = trace_of o /\
    (forall e, result_of o = Raise e ->
               result_of (position robot_name (Json body) self) = Raise e) /\
    (result_of o = Return tt ->
     result_of (position robot_name (Json body) self) = Return (PyList [x; y; angle])) /\
    (mqtt_client self = None ->
     position robot_name (Json body) self = (Return (PyList [x; y; angle]), self, [])).
Proof.
  intros robot_name body x y angle self Hc o. subst o.
  rewrite (position_complete robot_name body x y angle self Hc).
  unfold result_of, state_of, trace_of. cbn [fst snd].
  repeat split.
  - intros e ->. reflexivity.
  - intros ->. reflexivity.
  - intros Hnone. unfold update_beacon. rewrite Hnone. reflexivity.
Qed.

(** ** What no call changes *)

(** The fixed part of the table: ids and locations, in order. *)
Lemma store_occupant_sites bs k r :
  map (fun item => (fst item, loc (snd item))) (store_occupant bs k r)
  = map (fun item : string * beacon_data => (fst item, loc (snd item))) bs.
Proof.
  induction bs as [ | [k0 d0] rest IH]; cbn [store_occupant map]; [ reflexivity | ].
  destruct (String.eqb k0 k); cbn [map fst snd loc]; [ reflexivity | now rewrite IH ].
Qed.

Lemma after_step_sites far near robot_name k self :
  map (fun item => (fst item, loc (snd item)))
      (beacons (after_step far near robot_name k self))
  = map (fun item : string * beacon_data => (fst item, loc (snd item))) (beacons self).
Proof.
  unfold after_step. destruct far; [ | destruct near ]; cbn [beacons with_beacons];
    auto using store_occupant_sites.
Qed.

Lemma after_step_credentials far near robot_name k self :
  prefix (after_step far near robot_name k self) = prefix self /\
  user (after_step far near robot_name k self) = user self /\
  password (after_step far near robot_name k self) = password self.
Proof. unfold after_step. destruct far; [ | destruct near ]; repeat split. Qed.

Lemma for_each_sites robot_name robot_pos items : forall self,
  (forall item, In item items -> In (fst item) (map fst (beacons self))) ->
  let s := state_of (for_each items (beacon_step robot_name robot_pos) self) in
  map (fun item => (fst item, loc (snd item))) (beacons s)
  = map (fun item : string * beacon_data => (fst item, loc (snd item))) (beacons self) /\
  prefix s = prefix self /\ user s = user self /\ password s = password self.
Proof.
  induction items as [ | [k bd] rest IH]; intros self Hkeys.
  - cbn. repeat split.
  - cbv zeta. rewrite for_each_cons.
    rewrite beacon_step_eq
      by (apply dict_get_key; apply (Hkeys (k, bd)); now left).
    set (far := exits _ _ _ _). set (near := enters _ _ _).
    destruct (after_step_credentials far near robot_name k self) as (Hp & Hu & Hw).
    destruct (step_result robot_pos (beacon_radius self) bd) as [u | e].
    + destruct (IH (after_step far near robot_name k self)) as (Hs & Hp' & Hu' & Hw').
      { intros item Hin. rewrite after_step_keys. apply Hkeys. now right. }
      unfold state_of in *. cbn [fst snd].
      rewrite Hs, Hp', Hu', Hw', after_step_sites, Hp, Hu, Hw. repeat split.
    + unfold state_of. cbn [fst snd].
      rewrite after_step_sites, Hp, Hu, Hw. repeat split.
Qed.

Lemma update_beacon_keeps self robot_name robot_pos :
  let s := state_of (update_beacon robot_name robot_pos self) in
  map (fun item => (fst item, loc (snd item))) (beacons s)
  = map (fun item => (fst item, loc (snd item))) (beacons self) /\
  beacon_radius s = beacon_radius self /\
  mqtt_client s = mqtt_client self /\
  prefix s = prefix self /\ user s = user self /\ password s = password self.
Proof.
  intros s. subst s. unfold update_beacon.
  destruct (mqtt_client self) as [c | ] eqn:Hc; [ | cbn; now rewrite Hc ].
  assert (forall item, In item (beacons self) -> In (fst item) (map fst (beacons self)))
    as Hkeys by (intros item Hin; now apply in_map).
  destruct (for_each_sites robot_name robot_pos (beacons self) self Hkeys)
    as (Hs & Hp & Hu & Hw).
  destruct (for_each_keeps robot_name robot_pos (beacons self) self Hkeys)
    as (_ & Hr & Hcl & _).
  rewrite Hs, Hr, Hcl, Hp, Hu, Hw, Hc. repeat split.
Qed.

(** X19.  No call of [update_beacon] adds, removes, reorders or moves a
    beacon, or touches the radius, the client or the credentials: only
    occupants change, whether the call returns or raises. *)
Theorem update_beacon_keeps_configuration :
  forall self robot_name robot_pos,
    let s := state_of (update_beacon robot_name robot_pos self) in
    map (fun item => (fst item, loc (snd item))) (beacons s)
    = map (fun item => (fst item, loc (snd item))) (beacons self) /\
    beacon_radius s = beacon_radius self /\
    mqtt_client s = mqtt_client self /\
    prefix s = prefix self /\ user s = user self /\ password s = password self.
Proof. intros self robot_name robot_pos. apply update_beacon_keeps. Qed.

Lemma step_trace_configured far near robot_name k :
  Forall (fun e => e = ON k \/ e = OFF k \/
                   e = SetOccupant k None \/ e = SetOccupant k (Some robot_name))
         (step_trace far near robot_name k).
Proof.
  unfold step_trace, transition. cbn [fst snd].
  destruct far, near; cbn [app]; repeat constructor; tauto.
Qed.

Lemma for_each_configured robot_name robot_pos items : forall self,
  (forall item, In item items -> In (fst item) (map fst (beacons self))) ->
  Forall (fun e => exists k, In k (map fst items) /\
                             (e = ON k \/ e = OFF k \/
                              e = SetOccupant k None \/
                              e = SetOccupant k (Some robot_name)))
         (trace_of (for_each items (beacon_step robot_name robot_pos) self)).
Proof.
  induction items as [ | [k bd] rest IH]; intros self Hkeys.
  - constructor.
  - rewrite for_each_cons.
    rewrite beacon_step_eq
      by (apply dict_get_key; apply (Hkeys (k, bd)); now left).
    set (far := exits _ _ _ _). set (near := enters _ _ _).
    assert (Forall (fun e => exists k0, In k0 (map fst ((k, bd) :: rest)) /\
                                        (e = ON k0 \/ e = OFF k0 \/
                                         e = SetOccupant k0 None \/
                                         e = SetOccupant k0 (Some robot_name)))
                   (step_trace far near robot_name k)) as Hstep.
    { eapply Forall_impl; [ | apply step_trace_configured ].
      intros e He. exists k. split; [ now left | exact He ]. }
    destruct (step_result robot_pos (beacon_radius self) bd) as [u | e].
    + unfold trace_of at 1. cbn [snd]. apply Forall_app. split; [ exact Hstep | ].
      eapply Forall_impl; [ | apply IH ].
      * intros e (k0 & Hin & He). exists k0. split; [ now right | exact He ].
      * intros item Hin. rewrite after_step_keys. apply Hkeys. now right.
    + exact Hstep.
Qed.

(** X20.  A call of [update_beacon] acts on configured beacons only, and
    only in four ways: it publishes the ON or the OFF message of a
    beacon of the table on that beacon's topic, clears its occupant,
    or makes the reporting robot its occupant.  No other robot is ever
    written, and nothing is published for an unknown id. *)
Theorem update_beacon_effects_configured :
  forall self robot_name robot_pos,
    Forall (fun e => exists beacon_id,
                In beacon_id (map fst (beacons self)) /\
                (e = ON beacon_id \/ e = OFF beacon_id \/
                 e = SetOccupant beacon_id None \/
                 e = SetOccupant beacon_id (Some robot_name)))
           (trace_of (update_beacon robot_name robot_pos self)).
Proof.
  intros self robot_name robot_pos. unfold update_beacon.
  destruct (mqtt_client self) as [c | ]; [ | constructor ].
  apply for_each_configured. intros item Hin. now apply in_map.
Qed.

(** ** Two robots at one beacon *)

Lemma dists_defined_after self robot_name robot_pos robot_pos' :
  dists_defined self robot_pos' ->
  dists_defined (state_of (update_beacon robot_name robot_pos self)) robot_pos'.
Proof.
  intros Hd item Hin.
  destruct (update_beacon_keeps self robot_name robot_pos) as (Hs & _).
  apply (in_map (fun item : string * beacon_data => (fst item, loc (snd item)))) in Hin.
  rewrite Hs in Hin. apply in_map_iff in Hin. destruct Hin as (item0 & Heq & Hin0).
  injection Heq as _ Hloc. rewrite <- Hloc. now apply Hd.
Qed.

Lemma dict_get_Some_In {A : Type} (items : list (string * A)) (k : string) (v : A) :
  dict_get items k = Some v -> In (k, v) items.
Proof.
  induction items as [ | [k' v'] rest IH]; cbn [dict_get]; [ discriminate | ].
  destruct (String.eqb_spec k' k) as [-> | _].
  - intros [= ->]. now left.
  - intros H. right. now apply IH.
Qed.

(** What a call that runs the whole loop does to one beacon. *)
Lemma update_beacon_on_entry self robot_name robot_pos k bd :
  wf self ->
  In (k, bd) (beacons self) ->
  dists_defined self robot_pos ->
  as_num (beacon_radius self) <> None ->
  let o := update_beacon robot_name robot_pos self in
  let far := exits robot_name robot_pos (beacon_radius self) bd in
  let near := enters robot_pos (beacon_radius self) bd in
  In (k, entry_after far near robot_name bd) (beacons (state_of o)) /\
  emitted (OFF k) (trace_of o) = (if far then 1 else 0)%nat /\
  emitted (ON k) (trace_of o) = (if near then 1 else 0)%nat.
Proof.
  intros Hwf Hin Hd Hn o far near. subst o.
  pose proof (update_beacon_returns robot_name robot_pos self Hd Hn) as Hret.
  destruct (update_beacon_target robot_name robot_pos k bd self Hwf Hin)
    as (reached & t1 & t2 & Ht & H1 & H2 & Hget & Hreached).
  rewrite (Hreached Hret) in *. fold far near in Ht, Hget.
  split; [ | split ].
  - now apply dict_get_Some_In.
  - rewrite Ht, !emitted_app, emitted_step_trace_OFF,
      (not_about_emitted k _ t1 (about_OFF k) H1),
      (not_about_emitted k _ t2 (about_OFF k) H2). lia.
  - rewrite Ht, !emitted_app, emitted_step_trace_ON,
      (not_about_emitted k _ t1 (about_ON k) H1),
      (not_about_emitted k _ t2 (about_ON k) H2). lia.
Qed.

(** X21.  Last writer wins, and the last writer's exit switches the
    beacon off: when robot 1 reports from within the radius of a
    beacon, then robot 2 does, and then robot 2 reports from beyond the
    radius, the beacon is occupied by robot 1, then by robot 2, then by
    nobody, and the third call publishes OFF once, although robot 1 has
    not reported leaving.  The adapter is one that [__init__] built
    (distinct beacon ids, beacons only with a client), and every
    configured beacon's distance to each of the three positions is
    computable, so that each call runs its whole loop. *)
Theorem second_robot_exit_switches_off :
  forall self robot1 robot2 pos1 pos2 pos3 beacon_id bd d1 d2 d3,
    wf self ->
    In (beacon_id, bd) (beacons self) ->
    dists_defined self pos1 -> dists_defined self pos2 -> dists_defined self pos3 ->
    _dist (loc bd) pos1 = Return d1 -> float_lt d1 (beacon_radius self) = Return true ->
    _dist (loc bd) pos2 = Return d2 -> float_lt d2 (beacon_radius self) = Return true ->
    _dist (loc bd) pos3 = Return d3 -> float_gt d3 (beacon_radius self) = Return true ->
    let o1 := update_beacon robot1 pos1 self in
    let o2 := update_beacon robot2 pos2 (state_of o1) in
    let o3 := update_beacon robot2 pos3 (state_of o2) in
    In (beacon_id, {| loc := loc bd; occupant := Some robot1 |}) (beacons (state_of o1)) /\
    In (beacon_id, {| loc := loc bd; occupant := Some robot2 |}) (beacons (state_of o2)) /\
    In (beacon_id, {| loc := loc bd; occupant := None |}) (beacons (state_of o3)) /\
    emitted (OFF beacon_id) (trace_of o3) = 1%nat.
Proof.
  intros self robot1 robot2 pos1 pos2 pos3 k bd d1 d2 d3 Hwf Hin Hp1 Hp2 Hp3
         Hd1 Hlt1 Hd2 Hlt2 Hd3 Hgt3 o1 o2 o3.
  assert (as_num (beacon_radius self) <> None) as Hn.
  { unfold float_lt in Hlt1. destruct (as_num (beacon_radius self)); congruence. }
  (* first call *)
  destruct (update_beacon_on_entry self robot1 pos1 k bd Hwf Hin Hp1 Hn) as (Hin1 & _ & _).
  rewrite (exits_eq _ _ _ _ d1 Hd1), (enters_eq _ _ _ d1 Hd1),
    Hlt1, (float_lt_not_gt _ _ Hlt1), andb_false_r in Hin1.
  cbn [entry_after] in Hin1. fold o1 in Hin1.
  (* second call *)
  pose proof (update_beacon_wf robot1 pos1 self Hwf) as Hwf1. fold o1 in Hwf1.
  destruct (update_beacon_keeps self robot1 pos1) as (_ & Hr1 & _). fold o1 in Hr1.
  pose proof (dists_defined_after self robot1 pos1 pos2 Hp2) as Hp2'. fold o1 in Hp2'.
  assert (as_num (beacon_radius (state_of o1)) <> None) as Hn1 by now rewrite Hr1.
  destruct (update_beacon_on_entry (state_of o1) robot2 pos2 k _ Hwf1 Hin1 Hp2' Hn1)
    as (Hin2 & _ & _).
  cbn [loc] in Hin2.
  rewrite Hr1 in Hin2.
  unfold exits, enters in Hin2. cbn [loc occupant] in Hin2.
  rewrite Hd2, Hlt2, (float_lt_not_gt _ _ Hlt2), andb_false_r in Hin2.
  cbn [entry_after loc] in Hin2. fold o2 in Hin2.
  (* third call *)
  pose proof (update_beacon_wf robot2 pos2 (state_of o1) Hwf1) as Hwf2. fold o2 in Hwf2.
  destruct (update_beacon_keeps (state_of o1) robot2 pos2) as (_ & Hr2 & _). fold o2 in Hr2.
  pose proof (dists_defined_after self robot1 pos1 pos3 Hp3) as Hp3'. fold o1 in Hp3'.
  pose proof (dists_defined_after (state_of o1) robot2 pos2 pos3 Hp3') as Hp3''.
  fold o2 in Hp3''.
  assert (as_num (beacon_radius (state_of o2)) <> None) as Hn2 by now rewrite Hr2, Hr1.
  destruct (update_beacon_on_entry (state_of o2) robot2 pos3 k _ Hwf2 Hin2 Hp3'' Hn2)
    as (Hin3 & Hoff & _).
  rewrite Hr2, Hr1 in Hin3, Hoff.
  unfold exits, enters in Hin3, Hoff. cbn [loc occupant] in Hin3, Hoff.
  rewrite Hd3, Hgt3, ?(float_gt_not_lt _ _ Hgt3), occupant_is_Some in Hin3, Hoff.
  cbn [andb entry_after loc] in Hin3, Hoff. fold o3 in Hin3, Hoff.
  repeat split; assumption.
Qed.

End Platform.

(** ** Concrete runs

    The statements above hold for any [pow] of the platform; here they
    are applied on [square_libm]. *)

(** The scenario of the specification: a beacon at (0,0) with radius 2,
    a robot moving (5,0), (1,0), (5,0): nothing, then ON, then OFF.
    (The second beacon of the demo adapter stays out of reach.) *)
Example scenario_emissions :
  let s0 := demo_api in
  let o1 := update_beacon square_libm "robotA" [PyFloat 5; PyFloat 0] s0 in
  let o2 := update_beacon square_libm "robotA" [PyFloat 1; PyFloat 0] (state_of o1) in
  let o3 := update_beacon square_libm "robotA" [PyFloat 5; PyFloat 0] (state_of o2) in
  trace_of o1 = [] /\
  trace_of o2 = [ON "b1"; SetOccupant "b1" (Some "robotA")] /\
  trace_of o3 = [OFF "b1"; SetOccupant "b1" None] /\
  map (fun s => option_map occupant (dict_get (beacons s) "b1"))
      [state_of o1; state_of o2; state_of o3]
  = [Some None; Some (Some "robotA"); Some None].
Proof. vm_compute. repeat split. Qed.

(** An exception raised while one beacon is evaluated ends the call, and
    the beacons after it in the dict are not evaluated: here the square
    of the distance to the first beacon overflows.  Hence the entry and
    exit theorems ask for every distance to be computable. *)
Example update_beacon_aborted :
  update_beacon square_libm "robotA" [PyFloat 0; PyFloat 1] remote_api
  = (Raise OverflowError, remote_api, []).
Proof. vm_compute. reflexivity. Qed.

Lemma update_beacon_boundary_witness :
  ~ In (ON "b1") (trace_of (update_beacon square_libm "robotA" [PyFloat 2; PyFloat 0] demo_api_occupied)) /\
  ~ In (OFF "b1") (trace_of (update_beacon square_libm "robotA" [PyFloat 2; PyFloat 0] demo_api_occupied)) /\
  dict_get (beacons (state_of (update_beacon square_libm "robotA" [PyFloat 2; PyFloat 0] demo_api_occupied))) "b1"
  = Some {| loc := [PyFloat 0; PyFloat 0]; occupant := Some "robotA" |}.
Proof.
  apply (update_beacon_boundary square_libm demo_api_occupied "robotA" [PyFloat 2; PyFloat 0] "b1"
           {| loc := [PyFloat 0; PyFloat 0]; occupant := Some "robotA" |} 2%float).
  - exact demo_api_occupied_wf.
  - vm_compute. left. reflexivity.
  - vm_compute. reflexivity.
  - vm_compute. reflexivity.
Defined.

Lemma update_beacon_entry_witness :
  result_of (update_beacon square_libm "robotB" [PyFloat 1; PyFloat 0] demo_api_occupied) = Return tt /\
  dict_get (beacons (state_of (update_beacon square_libm "robotB" [PyFloat 1; PyFloat 0] demo_api_occupied))) "b1"
  = Some {| loc := [PyFloat 0; PyFloat 0]; occupant := Some "robotB" |} /\
  emitted (ON "b1") (trace_of (update_beacon square_libm "robotB" [PyFloat 1; PyFloat 0] demo_api_occupied)) = 1%nat /\
  emitted (OFF "b1") (trace_of (update_beacon square_libm "robotB" [PyFloat 1; PyFloat 0] demo_api_occupied)) = 0%nat.
Proof.
  apply (update_beacon_entry square_libm demo_api_occupied "robotB" [PyFloat 1; PyFloat 0] "b1"
           {| loc := [PyFloat 0; PyFloat 0]; occupant := Some "robotA" |} 1%float).
  - exact demo_api_occupied_wf.
  - vm_compute. left. reflexivity.
  - apply (demo_dists_defined square_libm); eexists; vm_compute; reflexivity.
  - vm_compute. reflexivity.
  - vm_compute. reflexivity.
Defined.

Lemma update_beacon_exit_witness :
  result_of (update_beacon square_libm "robotA" [PyFloat 5; PyFloat 0] demo_api_occupied) = Return tt /\
  dict_get (beacons (state_of (update_beacon square_libm "robotA" [PyFloat 5; PyFloat 0] demo_api_occupied))) "b1"
  = Some {| loc := [PyFloat 0; PyFloat 0]; occupant := None |} /\
  emitted (OFF "b1") (trace_of (update_beacon square_libm "robotA" [PyFloat 5; PyFloat 0] demo_api_occupied)) = 1%nat /\
  emitted (ON "b1") (trace_of (update_beacon square_libm "robotA" [PyFloat 5; PyFloat 0] demo_api_occupied)) = 0%nat.
Proof.
  refine (proj1 (update_beacon_exit square_libm demo_api_occupied "robotA" [PyFloat 5; PyFloat 0] "b1"
           {| loc := [PyFloat 0; PyFloat 0]; occupant := Some "robotA" |} _ _) 5%float _ _ _ _).
  - exact demo_api_occupied_wf.
  - vm_compute. left. reflexivity.
  - reflexivity.
  - apply (demo_dists_defined square_libm); eexists; vm_compute; reflexivity.
  - vm_compute. reflexivity.
  - vm_compute. reflexivity.
Defined.

(** C8 as the specification words it fails: in the entry transition of
    the demo adapter the publish is the first effect of the call, with
    no write of the occupant before it. *)
Lemma occupant_not_written_before_publish :
  ~ occupant_written_before_publish
      (trace_of (update_beacon square_libm "robotA" [PyFloat 1; PyFloat 0] demo_api)).
Proof.
  intros H.
  destruct (H [] [SetOccupant "b1" (Some "robotA")]
              (mqtt_topic "b1") {| id := "b1"; toggle := 1 |} eq_refl)
    as [robot []].
Qed.

(** The failing input: a successful status without a position. *)
Lemma position_missing_field :
  position square_libm "robot1" status_without_position demo_api = (Raise KeyError, demo_api, []).
Proof.
  apply (position_KeyError square_libm "robot1"
           (status_body [("robot_name", PyStr "robot1"); ("battery", PyFloat 100);
                         ("last_completed_request", PyInt 41)])
           (PyBool true)
           [("robot_name", PyStr "robot1"); ("battery", PyFloat 100);
            ("last_completed_request", PyInt 41)]
           demo_api);
    reflexivity.
Defined.

(** A complete status gives the pose and drives the beacons. *)
Example position_reports :
  position square_libm "robotA"
    (Json (status_body [("position", PyDict [("x", PyFloat 1); ("y", PyFloat 0);
                                             ("yaw", PyFloat 0.5)])]))
    demo_api
  = (Return (PyList [PyFloat 1; PyFloat 0; PyFloat 0.5]), demo_api_occupied,
     [ON "b1"; SetOccupant "b1" (Some "robotA")]).
Proof. vm_compute. reflexivity. Qed.

Lemma update_beacon_is_map_witness :
  update_beacon square_libm "robotA" [PyFloat 1; PyFloat 0] demo_api
  = (Return tt,
     with_beacons demo_api
       (map (rule square_libm "robotA" [PyFloat 1; PyFloat 0] (beacon_radius demo_api))
            (beacons demo_api)),
     flat_map (rule_trace square_libm "robotA" [PyFloat 1; PyFloat 0] (beacon_radius demo_api))
              (beacons demo_api)).
Proof.
  apply (update_beacon_is_map square_libm demo_api {| name := "MiR_Fleet"; connected := false |}).
  - reflexivity.
  - exact (proj1 demo_api_wf).
  - apply (demo_dists_defined square_libm); eexists; vm_compute; reflexivity.
  - discriminate.
Defined.

Lemma update_beacon_idempotent_witness :
  update_beacon square_libm "robotA" [PyFloat 1; PyFloat 0]
                (state_of (update_beacon square_libm "robotA" [PyFloat 1; PyFloat 0] demo_api))
  = (Return tt, state_of (update_beacon square_libm "robotA" [PyFloat 1; PyFloat 0] demo_api),
     flat_map (refresh square_libm "robotA" [PyFloat 1; PyFloat 0] (beacon_radius demo_api))
              (beacons demo_api)).
Proof.
  apply (update_beacon_idempotent square_libm demo_api {| name := "MiR_Fleet"; connected := false |}).
  - reflexivity.
  - exact (proj1 demo_api_wf).
  - apply (demo_dists_defined square_libm); eexists; vm_compute; reflexivity.
  - discriminate.
Defined.

Lemma update_beacon_one_signal_witness :
  (emitted (ON "b1") (trace_of (update_beacon square_libm "robotA" [PyFloat 5; PyFloat 0] demo_api_occupied))
   + emitted (OFF "b1") (trace_of (update_beacon square_libm "robotA" [PyFloat 5; PyFloat 0] demo_api_occupied))
   <= 1)%nat.
Proof.
  apply (update_beacon_one_signal square_libm demo_api_occupied "robotA" [PyFloat 5; PyFloat 0] "b1"
           {| loc := [PyFloat 0; PyFloat 0]; occupant := Some "robotA" |}).
  - exact demo_api_occupied_wf.
  - vm_compute. left. reflexivity.
Defined.

Lemma update_beacon_signal_matches_table_witness :
  (In (ON "b1") (trace_of (update_beacon square_libm "robotA" [PyFloat 1; PyFloat 0] demo_api)) ->
   dict_get (beacons (state_of (update_beacon square_libm "robotA" [PyFloat 1; PyFloat 0] demo_api))) "b1"
   = Some {| loc := [PyFloat 0; PyFloat 0]; occupant := Some "robotA" |}) /\
  (In (OFF "b1") (trace_of (update_beacon square_libm "robotA" [PyFloat 1; PyFloat 0] demo_api)) ->
   dict_get (beacons (state_of (update_beacon square_libm "robotA" [PyFloat 1; PyFloat 0] demo_api))) "b1"
   = Some {| loc := [PyFloat 0; PyFloat 0]; occupant := None |}).
Proof.
  apply (update_beacon_signal_matches_table square_libm demo_api "robotA" [PyFloat 1; PyFloat 0] "b1"
           {| loc := [PyFloat 0; PyFloat 0]; occupant := None |}).
  - exact demo_api_wf.
  - vm_compute. left. reflexivity.
Defined.

Lemma update_beacon_only_own_registration_witness :
  exists bd',
    dict_get (beacons (state_of (update_beacon square_libm "robotB" [PyFloat 5; PyFloat 0]
                                               demo_api_occupied))) "b1"
    = Some bd' /\
    loc bd' = loc {| loc := [PyFloat 0; PyFloat 0]; occupant := Some "robotA" |} /\
    (occupant bd' = occupant {| loc := [PyFloat 0; PyFloat 0]; occupant := Some "robotA" |} \/
     occupant bd' = Some "robotB" \/
     (occupant bd' = None /\
      occupant {| loc := [PyFloat 0; PyFloat 0]; occupant := Some "robotA" |}
      = Some "robotB")).
Proof.
  apply (update_beacon_only_own_registration square_libm demo_api_occupied "robotB"
           [PyFloat 5; PyFloat 0] "b1").
  - exact demo_api_occupied_wf.
  - vm_compute. left. reflexivity.
Defined.

Lemma _dist_never_negative_witness :
  float_lt 5 (PyInt 0) = Return false /\ float_lt 5 (PyFloat 0) = Return false.
Proof.
  apply (_dist_never_negative square_libm [PyInt 3; PyInt 0] [PyInt 0; PyInt 4] 5%float).
  vm_compute. reflexivity.
Defined.

Lemma nonpositive_radius_never_on_witness :
  ~ In (ON "b1")
       (trace_of (update_beacon square_libm "robotA" [PyFloat 0; PyFloat 0]
                                (init "h" "u" "p"
                                   (Some {| cfg_user := "u"; cfg_password := "p";
                                            cfg_url := "h";
                                            cfg_beacons := [("b1", [PyFloat 0; PyFloat 0])];
                                            cfg_beacon_alert_radius := PyInt 0 |})))) /\
  ~ In (SetOccupant "b1" (Some "robotA"))
       (trace_of (update_beacon square_libm "robotA" [PyFloat 0; PyFloat 0]
                                (init "h" "u" "p"
                                   (Some {| cfg_user := "u"; cfg_password := "p";
                                            cfg_url := "h";
                                            cfg_beacons := [("b1", [PyFloat 0; PyFloat 0])];
                                            cfg_beacon_alert_radius := PyInt 0 |})))).
Proof.
  apply (nonpositive_radius_never_on square_libm _ "robotA" [PyFloat 0; PyFloat 0] "b1"
           {| loc := [PyFloat 0; PyFloat 0]; occupant := None |}).
  - apply init_wf.
  - left. reflexivity.
  - vm_compute. reflexivity.
Defined.

Lemma update_beacon_nan_freezes_witness :
  ~ In (ON "b1") (trace_of (update_beacon square_libm "robotA" [PyFloat nan; PyFloat 0] demo_api_occupied)) /\
  ~ In (OFF "b1") (trace_of (update_beacon square_libm "robotA" [PyFloat nan; PyFloat 0] demo_api_occupied)) /\
  dict_get (beacons (state_of (update_beacon square_libm "robotA" [PyFloat nan; PyFloat 0]
                                             demo_api_occupied))) "b1"
  = Some {| loc := [PyFloat 0; PyFloat 0]; occupant := Some "robotA" |}.
Proof.
  apply (update_beacon_nan_freezes square_libm demo_api_occupied "robotA" [PyFloat nan; PyFloat 0] "b1"
           {| loc := [PyFloat 0; PyFloat 0]; occupant := Some "robotA" |} nan).
  - exact demo_api_occupied_wf.
  - vm_compute. left. reflexivity.
  - vm_compute. reflexivity.
  - reflexivity.
Defined.

Lemma failed_fetch_gives_fallbacks_witness :
  navigation_completed "robot1" 42 TransportFailed = Return false /\
  process_completed "robot1" 42 TransportFailed = Return false /\
  navigation_remaining_duration "robot1" 42 TransportFailed = Return PyNone /\
  battery_soc "robot1" TransportFailed = Return PyNone /\
  requires_replan "robot1" TransportFailed = Return (PyBool false) /\
  position square_libm "robot1" TransportFailed demo_api = (Return PyNone, demo_api, []).
Proof.
  apply (failed_fetch_gives_fallbacks square_libm "robot1" 42 TransportFailed demo_api).
  reflexivity.
Defined.

Lemma only_position_reads_success_witness :
  (navigation_completed "robot1" 41
     (Json (PyDict [("data", PyDict [("last_completed_request", PyInt 41)]);
                    ("success", PyBool false)]))
   = navigation_completed "robot1" 41
       (Json (PyDict [("success", PyBool true);
                      ("data", PyDict [("last_completed_request", PyInt 41)])])) /\
   navigation_remaining_duration "robot1" 41
     (Json (PyDict [("data", PyDict [("last_completed_request", PyInt 41)]);
                    ("success", PyBool false)]))
   = navigation_remaining_duration "robot1" 41
       (Json (PyDict [("success", PyBool true);
                      ("data", PyDict [("last_completed_request", PyInt 41)])])) /\
   battery_soc "robot1"
     (Json (PyDict [("data", PyDict [("last_completed_request", PyInt 41)]);
                    ("success", PyBool false)]))
   = battery_soc "robot1"
       (Json (PyDict [("success", PyBool true);
                      ("data", PyDict [("last_completed_request", PyInt 41)])])) /\
   requires_replan "robot1"
     (Json (PyDict [("data", PyDict [("last_completed_request", PyInt 41)]);
                    ("success", PyBool false)]))
   = requires_replan "robot1"
       (Json (PyDict [("success", PyBool true);
                      ("data", PyDict [("last_completed_request", PyInt 41)])]))) /\
  (forall success self,
      dict_get [("data", PyDict [("last_completed_request", PyInt 41)]);
                ("success", PyBool false)] "success" = Some success ->
      truthy success = false ->
      position square_libm "robot1"
        (Json (PyDict [("data", PyDict [("last_completed_request", PyInt 41)]);
                       ("success", PyBool false)])) self
      = (Return PyNone, self, [])).
Proof.
  apply (only_position_reads_success square_libm "robot1" 41
           [("data", PyDict [("last_completed_request", PyInt 41)]);
            ("success", PyBool false)]
           [("success", PyBool true);
            ("data", PyDict [("last_completed_request", PyInt 41)])]).
  reflexivity.
Defined.

Lemma position_runs_update_beacon_witness :
  state_of (position square_libm "robotA"
              (Json (status_body [("position", PyDict [("x", PyFloat 1); ("y", PyFloat 0);
                                                       ("yaw", PyFloat 0.5)])]))
              demo_api)
  = state_of (update_beacon square_libm "robotA" [PyFloat 1; PyFloat 0] demo_api) /\
  trace_of (position square_libm "robotA"
              (Json (status_body [("position", PyDict [("x", PyFloat 1); ("y", PyFloat 0);
                                                       ("yaw", PyFloat 0.5)])]))
              demo_api)
  = trace_of (update_beacon square_libm "robotA" [PyFloat 1; PyFloat 0] demo_api) /\
  (forall e,
      result_of (update_beacon square_libm "robotA" [PyFloat 1; PyFloat 0] demo_api) = Raise e ->
      result_of (position square_libm "robotA"
                   (Json (status_body [("position", PyDict [("x", PyFloat 1); ("y", PyFloat 0);
                                                            ("yaw", PyFloat 0.5)])]))
                   demo_api) = Raise e) /\
  (result_of (update_beacon square_libm "robotA" [PyFloat 1; PyFloat 0] demo_api) = Return tt ->
   result_of (position square_libm "robotA"
                (Json (status_body [("position", PyDict [("x", PyFloat 1); ("y", PyFloat 0);
                                                         ("yaw", PyFloat 0.5)])]))
                demo_api)
   = Return (PyList [PyFloat 1; PyFloat 0; PyFloat 0.5])) /\
  (mqtt_client demo_api = None ->
   position square_libm "robotA"
     (Json (status_body [("position", PyDict [("x", PyFloat 1); ("y", PyFloat 0);
                                              ("yaw", PyFloat 0.5)])]))
     demo_api
   = (Return (PyList [PyFloat 1; PyFloat 0; PyFloat 0.5]), demo_api, [])).
Proof.
  apply (position_runs_update_beacon square_libm "robotA"
           (status_body [("position", PyDict [("x", PyFloat 1); ("y", PyFloat 0);
                                              ("yaw", PyFloat 0.5)])])
           (PyFloat 1) (PyFloat 0) (PyFloat 0.5) demo_api).
  exists (PyBool true),
    (PyDict [("position", PyDict [("x", PyFloat 1); ("y", PyFloat 0); ("yaw", PyFloat 0.5)])]),
    (PyDict [("x", PyFloat 1); ("y", PyFloat 0); ("yaw", PyFloat 0.5)]).
  repeat split.
Defined.

Lemma second_robot_exit_switches_off_witness :
  In ("b1", {| loc := [PyFloat 0; PyFloat 0]; occupant := Some "robotA" |})
     (beacons (state_of (update_beacon square_libm "robotA" [PyFloat 1; PyFloat 0] demo_api))) /\
  In ("b1", {| loc := [PyFloat 0; PyFloat 0]; occupant := Some "robotB" |})
     (beacons (state_of (update_beacon square_libm "robotB" [PyFloat 0; PyFloat 1]
        (state_of (update_beacon square_libm "robotA" [PyFloat 1; PyFloat 0] demo_api))))) /\
  In ("b1", {| loc := [PyFloat 0; PyFloat 0]; occupant := None |})
     (beacons (state_of (update_beacon square_libm "robotB" [PyFloat 0; PyFloat 5]
        (state_of (update_beacon square_libm "robotB" [PyFloat 0; PyFloat 1]
           (state_of (update_beacon square_libm "robotA" [PyFloat 1; PyFloat 0] demo_api))))))) /\
  emitted (OFF "b1")
     (trace_of (update_beacon square_libm "robotB" [PyFloat 0; PyFloat 5]
        (state_of (update_beacon square_libm "robotB" [PyFloat 0; PyFloat 1]
           (state_of (update_beacon square_libm "robotA" [PyFloat 1; PyFloat 0] demo_api))))))
  = 1%nat.
Proof.
  apply (second_robot_exit_switches_off square_libm demo_api "robotA" "robotB"
           [PyFloat 1; PyFloat 0] [PyFloat 0; PyFloat 1] [PyFloat 0; PyFloat 5] "b1"
           {| loc := [PyFloat 0; PyFloat 0]; occupant := None |} 1%float 1%float 5%float).
  - exact demo_api_wf.
  - vm_compute. left. reflexivity.
  - apply (demo_dists_defined square_libm); eexists; vm_compute; reflexivity.
  - apply (demo_dists_defined square_libm); eexists; vm_compute; reflexivity.
  - apply (demo_dists_defined square_libm); eexists; vm_compute; reflexivity.
  - vm_compute. reflexivity.
  - vm_compute. reflexivity.
  - vm_compute. reflexivity.
  - vm_compute. reflexivity.
  - vm_compute. reflexivity.
  - vm_compute. reflexivity.
Defined.
